(** * The cave adventure engine of [ascii_game.py]

    A shallow embedding of the [ASCIIGame] class: the data classes, the
    world built by [_create_world], and the ten public methods, followed by
    the properties of navigation, combat, levelling and item use.

    Modelling conventions.
    - Python [int] is [Z]; [str] is [string], the bytes of its UTF-8
      encoding.  [lower] is [str.lower] on ASCII strings: it maps the
      letters [A]-[Z] to [a]-[z] and keeps every other byte.  On other
      strings [str.lower] folds more (É to é, the Kelvin sign to k), so
      what is stated about which names match is stated for ASCII strings
      ([is_ascii]) or for the world of [_create_world], whose names are
      ASCII.
    - A method of [ASCIIGame] is a computation [M A]: it reads and writes
      the session and either returns or raises.  A raise keeps the writes
      made before it, as in Python.
    - The enemy dictionaries are objects: a room lists references to its
      templates, [current_enemy] is a reference, and [dict.copy] allocates.
      The store of those objects is the field [heap] of the session.
    - [random.choice] takes its draw from an argument [rnd] of the method
      that may reach it; the element chosen is the one at [rnd mod len].
    - A returned text is a [Reply]: one constructor per [return] statement,
      carrying the values its f-string interpolates. *)

From stdpp Require Import base option list gmap strings relations.
From Stdlib Require Import ZArith Lia Ascii String.

Local Open Scope Z_scope.

(** ** Enumerations and data classes *)

Inductive Direction := NORTH | SOUTH | EAST | WEST.

Inductive ItemType := WEAPON | ARMOR | POTION | KEY | TREASURE.

#[global] Instance Direction_eq_dec : EqDecision Direction.
Proof. solve_decision. Defined.

#[global] Instance ItemType_eq_dec : EqDecision ItemType.
Proof. solve_decision. Defined.

Module Item.
Record t := mk {
  name : string;
  description : string;
  item_type : ItemType;
  damage : Z;
  defense : Z;
  healing : Z
}.
End Item.

#[global] Instance Item_eq_dec : EqDecision Item.t.
Proof. solve_decision. Defined.

(** A reference to an enemy dictionary. *)
Definition loc := positive.

(** The dictionaries of [Room.enemies]: the four keys the code reads. *)
Module Enemy.
Record t := mk {
  name : string;
  health : Z;
  damage : Z;
  exp : Z
}.
End Enemy.

Module Room.
Record t := mk {
  name : string;
  description : string;
  exits : list (Direction * string);
  items : list Item.t;
  enemies : list loc;
  visited : bool
}.
Definition set_items (l : list Item.t) (r : t) : t :=
  mk (name r) (description r) (exits r) l (enemies r) (visited r).
Definition set_visited (b : bool) (r : t) : t :=
  mk (name r) (description r) (exits r) (items r) (enemies r) b.
End Room.

Module Player.
Record t := mk {
  name : string;
  health : Z;
  max_health : Z;
  inventory : list Item.t;
  current_room : string;
  gold : Z;
  level : Z;
  experience : Z
}.
Definition set_health (h : Z) (p : t) : t :=
  mk (name p) h (max_health p) (inventory p) (current_room p) (gold p)
     (level p) (experience p).
Definition set_max_health (h : Z) (p : t) : t :=
  mk (name p) (health p) h (inventory p) (current_room p) (gold p)
     (level p) (experience p).
Definition set_inventory (l : list Item.t) (p : t) : t :=
  mk (name p) (health p) (max_health p) l (current_room p) (gold p)
     (level p) (experience p).
Definition set_current_room (r : string) (p : t) : t :=
  mk (name p) (health p) (max_health p) (inventory p) r (gold p)
     (level p) (experience p).
Definition set_gold (g : Z) (p : t) : t :=
  mk (name p) (health p) (max_health p) (inventory p) (current_room p) g
     (level p) (experience p).
Definition set_level (n : Z) (p : t) : t :=
  mk (name p) (health p) (max_health p) (inventory p) (current_room p)
     (gold p) n (experience p).
Definition set_experience (n : Z) (p : t) : t :=
  mk (name p) (health p) (max_health p) (inventory p) (current_room p)
     (gold p) (level p) n.
(** [Player(name=player_name)]: the defaults of the data class. *)
Definition new (player_name : string) : t :=
  mk player_name 100 100 [] "entrance" 0 1 0.
End Player.

(** ** The session *)

Record Game := mkGame {
  player : option Player.t;
  game_started : bool;
  game_over : bool;
  rooms : gmap string Room.t;
  current_enemy : option loc;
  heap : gmap loc Enemy.t
}.

Definition set_player (p : option Player.t) (s : Game) : Game :=
  mkGame p (game_started s) (game_over s) (rooms s) (current_enemy s) (heap s).
Definition set_game_started (b : bool) (s : Game) : Game :=
  mkGame (player s) b (game_over s) (rooms s) (current_enemy s) (heap s).
Definition set_game_over (b : bool) (s : Game) : Game :=
  mkGame (player s) (game_started s) b (rooms s) (current_enemy s) (heap s).
Definition set_rooms (r : gmap string Room.t) (s : Game) : Game :=
  mkGame (player s) (game_started s) (game_over s) r (current_enemy s) (heap s).
Definition set_current_enemy (e : option loc) (s : Game) : Game :=
  mkGame (player s) (game_started s) (game_over s) (rooms s) e (heap s).
Definition set_heap (h : gmap loc Enemy.t) (s : Game) : Game :=
  mkGame (player s) (game_started s) (game_over s) (rooms s) (current_enemy s) h.

(** ** Strings *)

(** [str.lower] on one ASCII character. *)
Definition lower_ascii (c : ascii) : ascii :=
  let n := Ascii.N_of_ascii c in
  if ((65 <=? n) && (n <=? 90))%N then Ascii.ascii_of_N (n + 32) else c.

(** [str.lower] on a string of ASCII characters; a byte above 127 is kept
    as it is. *)
Fixpoint lower (s : string) : string :=
  match s with
  | EmptyString => EmptyString
  | String c s' => String (lower_ascii c) (lower s')
  end.

(** The strings of ASCII characters, on which [lower] is [str.lower]. *)
Fixpoint is_ascii (s : string) : bool :=
  match s with
  | EmptyString => true
  | String c s' => (Ascii.N_of_ascii c <? 128)%N && is_ascii s'
  end.

(** [sub in s]. *)
Fixpoint contains (sub s : string) : bool :=
  String.prefix sub s ||
  match s with
  | EmptyString => false
  | String _ s' => contains sub s'
  end.

(** [sep.join(l)]. *)
Fixpoint join (sep : string) (l : list string) : string :=
  match l with
  | [] => ""
  | [x] => x
  | x :: rest => x +:+ sep +:+ join sep rest
  end.

Definition newline : string := String (Ascii.ascii_of_nat 10) "".

(** [Direction.value] and the lookup by value [Direction(v)], which raises
    [ValueError] (here [None]) on any other string. *)
Definition Direction_value (d : Direction) : string :=
  match d with
  | NORTH => "north" | SOUTH => "south" | EAST => "east" | WEST => "west"
  end.

Definition Direction_of_value (v : string) : option Direction :=
  if String.eqb v "north" then Some NORTH
  else if String.eqb v "south" then Some SOUTH
  else if String.eqb v "east" then Some EAST
  else if String.eqb v "west" then Some WEST
  else None.

(** ** Lists *)

(** [sum(...)] over integers. *)
Definition zsum (l : list Z) : Z := foldr Z.add 0 l.

(** [sum(item.damage for item in inventory if item.item_type == WEAPON)]. *)
Definition weapon_damage (inventory : list Item.t) : Z :=
  zsum (Item.damage <$> filter (λ item, Item.item_type item = WEAPON) inventory).

(** [sum(item.defense for item in inventory if item.item_type == ARMOR)]. *)
Definition armor_defense (inventory : list Item.t) : Z :=
  zsum (Item.defense <$> filter (λ item, Item.item_type item = ARMOR) inventory).

(** The loops of [take] and [use]: the first item, in list order, whose
    lowered name equals the lowered argument. *)
Fixpoint find_item (item_name : string) (l : list Item.t) : option Item.t :=
  match l with
  | [] => None
  | item :: rest =>
      if String.eqb (lower (Item.name item)) (lower item_name) then Some item
      else find_item item_name rest
  end.

(** [l.remove(x)]: drops the first element equal to [x] (the data class
    compares all fields); [None] stands for the [ValueError] of a list
    without [x]. *)
Fixpoint list_remove (x : Item.t) (l : list Item.t) : option (list Item.t) :=
  match l with
  | [] => None
  | y :: rest =>
      if decide (y = x) then Some rest
      else cons y <$> list_remove x rest
  end.

(** [dict[key]] on the exits of a room. *)
Fixpoint lookup_exit (d : Direction) (exits : list (Direction * string))
  : option string :=
  match exits with
  | [] => None
  | (d', target) :: rest =>
      if decide (d' = d) then Some target else lookup_exit d rest
  end.

(** [random.choice(seq)] on a non-empty sequence [x :: rest], with the
    draw [rnd]. *)
Definition random_choice {A} (rnd : nat) (x : A) (rest : list A) : A :=
  nth (rnd mod S (List.length rest))%nat (x :: rest) x.

(** ** Replies *)

(** The pieces [attack] appends to its result, in order. *)
Inductive AttackLine :=
| YouAttack (enemy : string) (total_damage : Z)
    (* You attack the {name} for {total_damage} damage! *)
| Defeated (enemy : string) (exp_gained : Z)
    (* You defeated the {name}! Gained {exp_gained} experience. *)
| LevelUp (level : Z)
    (* LEVEL UP! You are now level {level}! *)
| EnemyAttacks (enemy : string) (actual_damage : Z)
    (* The {name} attacks you for {actual_damage} damage! *)
| EnemyHealth (health : Z)
    (* Enemy health: {health} *)
| YourHealth (health : Z)
    (* Your health: {health} *)
| YouAreDefeated.
    (* You have been defeated! Game over. *)

Inductive Reply :=
| NotStarted
    (* Game not started. Use 'start_game' to begin. *)
| RoomText (description : string)
    (* room.description *)
| EnemyAppears (description enemy : string) (health : Z)
    (* {room.description} ... A {name} appears! (Health: {health}) *)
| Welcome (player_name : string) (room : Reply)
    (* the welcome box, then {self._get_room_description()} *)
| LookText (room : Reply) (items_list exits_list : string)
    (* {self._get_room_description()}, Items in room, Available exits *)
| InCombat
    (* You cannot move while in combat! Attack or flee first. *)
| InvalidDirection (direction : string)
    (* Invalid direction: {direction}. Use north, south, east, or west. *)
| NoSuchExit (direction : string)
    (* You cannot go {direction} from here. *)
| Moved (direction : string) (room : Reply)
    (* You move {direction}. {self._get_room_description()} *)
| PickedUpGold (item : string)
    (* You picked up {item.name} and gained 50 gold! *)
| FoundChest
    (* You found a treasure chest! You gained 200 gold! *)
| PickedUp (item : string)
    (* You picked up {item.name}. *)
| ItemNotInRoom (item_name : string)
    (* Item '{item_name}' not found in this room. *)
| InventoryEmpty
    (* Your inventory is empty. *)
| InventoryText (items_list : string)
    (* the inventory box around {items_list} *)
| StatusText (name : string) (health max_health level experience gold
              total_damage total_defense : Z) (room : string)
    (* the status box *)
| NoEnemies
    (* There are no enemies to attack. *)
| AttackText (result : list AttackLine)
| UsedPotion (item : string) (healing : Z)
    (* You used {item.name} and restored {item.healing} health! *)
| ItemNotUsable (item : string)
    (* You cannot use {item.name} right now. *)
| ItemNotInInventory (item_name : string)
    (* Item '{item_name}' not found in your inventory. *)
| HelpText
    (* the help box *)
| GameOverText
    (* Game Over! You have been defeated. *)
| GameStateText (location : string) (health max_health level gold : Z)
                (enemy_info : option (string * Z)).
    (* Location, Health, Level, Gold and, in combat, Enemy ... (Health: ...) *)

(** ** Computations on the session *)

Inductive Exn :=
| AttributeError            (* an attribute of [self.player] while it is None *)
| KeyError (key : string)   (* [self.rooms[key]] without that key *)
| ValueError                (* [list.remove(x)] without [x] *)
| Dangling (l : loc).       (* a reference outside the store; Python has none *)

Definition M (A : Type) : Type := Game → (Exn + A) * Game.

#[global] Instance M_ret : MRet M := λ A a s, (inr a, s).

#[global] Instance M_bind : MBind M := λ A B f m s,
  match m s with
  | (inr a, s') => f a s'
  | (inl e, s') => (inl e, s')
  end.

Definition get : M Game := λ s, (inr s, s).
Definition modify (f : Game → Game) : M unit := λ s, (inr tt, f s).
Definition raise {A} (e : Exn) : M A := λ s, (inl e, s).

(** [self.player] where an attribute of it is read next. *)
Definition self_player : M Player.t :=
  s ← get;
  match player s with
  | Some p => mret p
  | None => raise AttributeError
  end.

(** An assignment to an attribute of [self.player]. *)
Definition update_player (f : Player.t → Player.t) : M unit :=
  p ← self_player; modify (set_player (Some (f p))).

(** [self.rooms[key]]. *)
Definition self_rooms (key : string) : M Room.t :=
  s ← get;
  match rooms s !! key with
  | Some r => mret r
  | None => raise (KeyError key)
  end.

(** A write to the room object stored under [key]. *)
Definition store_room (key : string) (r : Room.t) : M unit :=
  modify (λ s, set_rooms (<[key := r]> (rooms s)) s).

(** Reading, writing and allocating enemy dictionaries. *)
Definition deref (l : loc) : M Enemy.t :=
  s ← get;
  match heap s !! l with
  | Some e => mret e
  | None => raise (Dangling l)
  end.

Definition store (l : loc) (e : Enemy.t) : M unit :=
  modify (λ s, set_heap (<[l := e]> (heap s)) s).

Definition alloc (e : Enemy.t) : M loc :=
  s ← get;
  let l := fresh (dom (heap s)) in
  modify (set_heap (<[l := e]> (heap s)));;
  mret l.

(** ** The methods of [ASCIIGame] *)

Definition _get_room_description (rnd : nat) : M Reply :=
  s ← get;
  if negb (game_started s) then mret NotStarted else
  p ← self_player;
  room ← self_rooms (Player.current_room p);
  store_room (Player.current_room p) (Room.set_visited true room);;
  match Room.enemies room, current_enemy s with
  | t :: ts, None =>
      template ← deref (random_choice rnd t ts);
      l ← alloc template;
      modify (set_current_enemy (Some l));;
      mret (EnemyAppears (Room.description room)
              (Enemy.name template) (Enemy.health template))
  | _, _ => mret (RoomText (Room.description room))
  end.

Definition start_game (rnd : nat) (player_name : string) : M Reply :=
  modify (set_player (Some (Player.new player_name)));;
  modify (set_game_started true);;
  modify (set_game_over false);;
  modify (set_current_enemy None);;
  room ← _get_room_description rnd;
  mret (Welcome player_name room).

Definition look (rnd : nat) : M Reply :=
  s ← get;
  if negb (game_started s) then mret NotStarted else
  p ← self_player;
  room ← self_rooms (Player.current_room p);
  let items_list :=
    match Room.items room with
    | [] => "None"
    | items => join ", " (Item.name <$> items)
    end in
  let exits_list := join ", " ((Direction_value ∘ fst) <$> Room.exits room) in
  text ← _get_room_description rnd;
  mret (LookText text items_list exits_list).

Definition move (rnd : nat) (direction : string) : M Reply :=
  s ← get;
  if negb (game_started s) then mret NotStarted else
  match current_enemy s with
  | Some _ => mret InCombat
  | None =>
      match Direction_of_value (lower direction) with
      | None => mret (InvalidDirection direction)
      | Some dir_enum =>
          p ← self_player;
          current_room ← self_rooms (Player.current_room p);
          match lookup_exit dir_enum (Room.exits current_room) with
          | None => mret (NoSuchExit direction)
          | Some target =>
              update_player (Player.set_current_room target);;
              text ← _get_room_description rnd;
              mret (Moved direction text)
          end
      end
  end.

Definition take (item_name : string) : M Reply :=
  s ← get;
  if negb (game_started s) then mret NotStarted else
  p ← self_player;
  room ← self_rooms (Player.current_room p);
  match find_item item_name (Room.items room) with
  | None => mret (ItemNotInRoom item_name)
  | Some item =>
      update_player (Player.set_inventory (Player.inventory p ++ [item]));;
      match list_remove item (Room.items room) with
      | None => raise ValueError
      | Some items =>
          store_room (Player.current_room p) (Room.set_items items room);;
          if decide (Item.item_type item = TREASURE) then
            if String.eqb (Item.name item) "Gold Coins" then
              update_player (λ p, Player.set_gold (Player.gold p + 50) p);;
              mret (PickedUpGold (Item.name item))
            else if String.eqb (Item.name item) "Treasure Chest" then
              update_player (λ p, Player.set_gold (Player.gold p + 200) p);;
              mret FoundChest
            else mret (PickedUp (Item.name item))
          else mret (PickedUp (Item.name item))
      end
  end.

Definition inventory : M Reply :=
  s ← get;
  if negb (game_started s) then mret NotStarted else
  p ← self_player;
  match Player.inventory p with
  | [] => mret InventoryEmpty
  | items =>
      mret (InventoryText
              (join newline
                 ((λ item, "- " +:+ Item.name item +:+ ": "
                           +:+ Item.description item) <$> items)))
  end.

Definition status : M Reply :=
  s ← get;
  if negb (game_started s) then mret NotStarted else
  p ← self_player;
  let total_damage := weapon_damage (Player.inventory p) in
  let total_defense := armor_defense (Player.inventory p) in
  room ← self_rooms (Player.current_room p);
  mret (StatusText (Player.name p) (Player.health p) (Player.max_health p)
          (Player.level p) (Player.experience p) (Player.gold p)
          total_damage total_defense (Room.name room)).

Definition attack : M Reply :=
  s ← get;
  if negb (game_started s) then mret NotStarted else
  match current_enemy s with
  | None => mret NoEnemies
  | Some l =>
      p ← self_player;
      let base_damage := 5 in
      let total_damage := base_damage + weapon_damage (Player.inventory p) in
      e ← deref l;
      let enemy :=
        Enemy.mk (Enemy.name e) (Enemy.health e - total_damage)
                 (Enemy.damage e) (Enemy.exp e) in
      store l enemy;;
      let result := [YouAttack (Enemy.name enemy) total_damage] in
      if Enemy.health enemy <=? 0 then
        let exp_gained := Enemy.exp enemy in
        update_player
          (λ p, Player.set_experience (Player.experience p + exp_gained) p);;
        let result := result ++ [Defeated (Enemy.name enemy) exp_gained] in
        modify (set_current_enemy None);;
        p ← self_player;
        if Player.level p * 50 <=? Player.experience p then
          update_player (λ p, Player.set_level (Player.level p + 1) p);;
          update_player (λ p, Player.set_max_health (Player.max_health p + 20) p);;
          update_player (λ p, Player.set_health (Player.max_health p) p);;
          p ← self_player;
          mret (AttackText (result ++ [LevelUp (Player.level p)]))
        else mret (AttackText result)
      else
        let enemy_damage := Enemy.damage enemy in
        let defense := armor_defense (Player.inventory p) in
        let actual_damage := Z.max 1 (enemy_damage - defense) in
        update_player (λ p, Player.set_health (Player.health p - actual_damage) p);;
        p ← self_player;
        let result :=
          result ++ [EnemyAttacks (Enemy.name enemy) actual_damage;
                     EnemyHealth (Enemy.health enemy);
                     YourHealth (Player.health p)] in
        if Player.health p <=? 0 then
          modify (set_game_over true);;
          mret (AttackText (result ++ [YouAreDefeated]))
        else mret (AttackText result)
  end.

Definition use (item_name : string) : M Reply :=
  s ← get;
  if negb (game_started s) then mret NotStarted else
  p ← self_player;
  match find_item item_name (Player.inventory p) with
  | None => mret (ItemNotInInventory item_name)
  | Some item =>
      if bool_decide (Item.item_type item = POTION)
         && contains "health" (lower (Item.name item))
      then
        update_player
          (Player.set_health
             (Z.min (Player.max_health p) (Player.health p + Item.healing item)));;
        match list_remove item (Player.inventory p) with
        | None => raise ValueError
        | Some items =>
            update_player (Player.set_inventory items);;
            mret (UsedPotion (Item.name item) (Item.healing item))
        end
      else mret (ItemNotUsable (Item.name item))
  end.

Definition help : M Reply := mret HelpText.

Definition get_game_state : M Reply :=
  s ← get;
  if negb (game_started s) then mret NotStarted else
  if game_over s then mret GameOverText else
  p ← self_player;
  room ← self_rooms (Player.current_room p);
  enemy_info ←
    match current_enemy s with
    | Some l => e ← deref l; mret (Some (Enemy.name e, Enemy.health e))
    | None => mret None
    end;
  mret (GameStateText (Room.name room) (Player.health p) (Player.max_health p)
          (Player.level p) (Player.gold p) enemy_info).

(** ** The world of [_create_world] and the constructor *)

Definition entrance : Room.t :=
  Room.mk "Cave Entrance" "
╔══════════════════════════════════════════════════════════════╗
║                        CAVE ENTRANCE                         ║
╠══════════════════════════════════════════════════════════════╣
║  You stand at the entrance of a mysterious cave. The air    ║
║  is cool and damp. Sunlight filters in from behind you,     ║
║  but ahead lies darkness. You can hear the sound of         ║
║  dripping water echoing from within.                        ║
║                                                              ║
║  Items: A rusty sword lies on the ground                    ║
║  Exits: north                                                ║
╚══════════════════════════════════════════════════════════════╝
            "
    [(NORTH, "main_cavern")]
    [Item.mk "Rusty Sword" "A basic sword with some rust" WEAPON 5 0 0]
    [] false.

Definition main_cavern : Room.t :=
  Room.mk "Main Cavern" "
╔══════════════════════════════════════════════════════════════╗
║                        MAIN CAVERN                           ║
╠══════════════════════════════════════════════════════════════╣
║  A large cavern stretches before you. Stalactites hang      ║
║  from the ceiling like stone icicles, and the floor is      ║
║  uneven with scattered rocks. The air is thick with         ║
║  mystery and danger.                                         ║
║                                                              ║
║  Items: Health potion                                        ║
║  Exits: north, south, east, west                            ║
╚══════════════════════════════════════════════════════════════╝
            "
    [(NORTH, "treasure_room"); (SOUTH, "entrance");
     (EAST, "goblin_camp"); (WEST, "armory")]
    [Item.mk "Health Potion" "Restores 30 health" POTION 0 0 30]
    [1%positive] false.

Definition goblin_camp : Room.t :=
  Room.mk "Goblin Camp" "
╔══════════════════════════════════════════════════════════════╗
║                       GOBLIN CAMP                            ║
╠══════════════════════════════════════════════════════════════╣
║  A small camp with scattered bones and crude weapons.       ║
║  The remains of a campfire smolder in the center. This      ║
║  place reeks of goblin activity.                            ║
║                                                              ║
║  Items: Leather armor, Gold coins                           ║
║  Exits: west                                                 ║
╚══════════════════════════════════════════════════════════════╝
            "
    [(WEST, "main_cavern")]
    [Item.mk "Leather Armor" "Basic leather protection" ARMOR 0 10 0;
     Item.mk "Gold Coins" "Shiny gold coins" TREASURE 0 0 0]
    [2%positive] false.

Definition armory : Room.t :=
  Room.mk "Ancient Armory" "
╔══════════════════════════════════════════════════════════════╗
║                     ANCIENT ARMORY                           ║
╠══════════════════════════════════════════════════════════════╣
║  An old armory with rusted weapon racks and armor stands.   ║
║  Most equipment has decayed, but a few items remain         ║
║  in usable condition.                                        ║
║                                                              ║
║  Items: Steel sword, Iron helmet                            ║
║  Exits: east                                                 ║
╚══════════════════════════════════════════════════════════════╝
            "
    [(EAST, "main_cavern")]
    [Item.mk "Steel Sword" "A well-crafted steel blade" WEAPON 15 0 0;
     Item.mk "Iron Helmet" "Protective headgear" ARMOR 0 8 0]
    [] false.

Definition treasure_room : Room.t :=
  Room.mk "Treasure Chamber" "
╔══════════════════════════════════════════════════════════════╗
║                    TREASURE CHAMBER                          ║
╠══════════════════════════════════════════════════════════════╣
║  A magnificent chamber filled with gold, jewels, and        ║
║  ancient artifacts. The walls sparkle with precious         ║
║  metals. This is the legendary treasure room!               ║
║                                                              ║
║  Items: Diamond sword, Golden armor, Treasure chest         ║
║  Exits: south                                               ║
╚══════════════════════════════════════════════════════════════╝
            "
    [(SOUTH, "main_cavern")]
    [Item.mk "Diamond Sword" "A legendary blade" WEAPON 25 0 0;
     Item.mk "Golden Armor" "Magnificent golden protection" ARMOR 0 20 0;
     Item.mk "Treasure Chest" "Filled with gold and jewels" TREASURE 0 0 0]
    [3%positive] false.

(** The rooms, and the store holding the three enemy dictionaries the
    room lists refer to. *)
Definition _create_world : gmap string Room.t * gmap loc Enemy.t :=
  (<["treasure_room" := treasure_room]>
     (<["armory" := armory]>
        (<["goblin_camp" := goblin_camp]>
           (<["main_cavern" := main_cavern]>
              (<["entrance" := entrance]> ∅)))),
   <[3%positive := Enemy.mk "Dragon Guardian" 100 20 100]>
     (<[2%positive := Enemy.mk "Goblin Warrior" 35 12 25]>
        (<[1%positive := Enemy.mk "Cave Bat" 20 8 15]> ∅))).

(** [ASCIIGame()]. *)
Definition ASCIIGame : Game :=
  mkGame None false false (fst _create_world) None (snd _create_world).

(** ** Sessions as sequences of calls *)

Inductive Command :=
| StartGame (rnd : nat) (player_name : string)
| Look (rnd : nat)
| Move (rnd : nat) (direction : string)
| Take (item_name : string)
| Inventory
| Status
| Attack
| Use (item_name : string)
| Help
| GetGameState.

Definition exec (c : Command) : M Reply :=
  match c with
  | StartGame rnd player_name => start_game rnd player_name
  | Look rnd => look rnd
  | Move rnd direction => move rnd direction
  | Take item_name => take item_name
  | Inventory => inventory
  | Status => status
  | Attack => attack
  | Use item_name => use item_name
  | Help => help
  | GetGameState => get_game_state
  end.

(** The session after the calls [cs], made in order on [s].  A call that
    raises leaves the session as it was at the raise. *)
Fixpoint run (cs : list Command) (s : Game) : Game :=
  match cs with
  | [] => s
  | c :: cs' => run cs' (snd (exec c s))
  end.

Inductive reachable (s0 : Game) : Game → Prop :=
| reachable_refl : reachable s0 s0
| reachable_step s c : reachable s0 s → reachable s0 (snd (exec c s)).

(** ** Concrete sessions used as instances *)

(** A session that has just walked into the Main Cavern: the Cave Bat is
    the active enemy. *)
Definition facing_bat : Game :=
  run [StartGame 0 "Ann"; Move 0 "north"] ASCIIGame.

(** The bat has been beaten with four bare-handed attacks. *)
Definition bat_beaten : Game :=
  run [Attack; Attack; Attack; Attack] facing_bat.

(** On to the Treasure Chamber, where four exchanges with the Dragon
    Guardian bring the player from 76 health to -4. *)
Definition slain_by_dragon : Game :=
  run [Move 0 "North"; Attack; Attack; Attack; Attack] bat_beaten.

(** The bat has been beaten, the Leather Armor taken in the Goblin Camp
    and the goblin beaten there; back in the Main Cavern a new Cave Bat
    (damage 8) faces a player whose armor sums to 10. *)
Definition armored_facing_bat : Game :=
  run [Move 0 "east"; Take "leather armor";
       Attack; Attack; Attack; Attack; Attack; Attack; Attack;
       Move 0 "west"] bat_beaten.

(** A hand-made session: a newcomer (level 1, no experience) carrying the
    Diamond Sword faces a Dragon Guardian that is down to 30 health. *)
Definition newcomer_facing_dragon : Game :=
  mkGame
    (Some (Player.mk "Ann" 40 100
             [Item.mk "Diamond Sword" "A legendary blade" WEAPON 25 0 0]
             "treasure_room" 0 1 0))
    true false (fst _create_world) (Some 9%positive)
    (<[9%positive := Enemy.mk "Dragon Guardian" 30 20 100]>
       (snd _create_world)).

(** [ASCIIGame] over any world: the constructor with the result of
    [_create_world] replaced by the rooms [w] and the store [h]. *)
Definition new_session (w : gmap string Room.t) (h : gmap loc Enemy.t) : Game :=
  mkGame None false false w None h.

(** The outcome of a call made on [s], read on the session with the
    game-over flag set. *)
Definition with_game_over {A} (r : (Exn + A) * Game) : (Exn + A) * Game :=
  (fst r, set_game_over true (snd r)).

(** A session that has just been started. *)
Definition just_started : Game := run [StartGame 0 "Ann"] ASCIIGame.

(** The Cave Bat of [armored_facing_bat] has been beaten too: with 55
    experience the player is at level 2. *)
Definition levelled_up : Game :=
  run [Attack; Attack; Attack; Attack] armored_facing_bat.

(** From [bat_beaten] into the Goblin Camp, where the Gold Coins are
    picked up under the eyes of the Goblin Warrior. *)
Definition with_gold : Game :=
  run [Move 0 "east"; Take "gold coins"] bat_beaten.

(** The player has picked up the Rusty Sword at the entrance and walked
    into the Main Cavern: the Cave Bat is the active enemy. *)
Definition armed_facing_bat : Game :=
  run [StartGame 0 "Ann"; Take "rusty sword"; Move 0 "north"] ASCIIGame.

(** The Health Potion of the Main Cavern has been picked up after the
    fight with the bat, at 76 health. *)
Definition with_potion : Game := run [Take "health potion"] bat_beaten.

(** ** Effects and invariants *)

(** The changes one call can make to the session, one constructor per
    group of assignments the methods perform together. *)
Inductive effect (s : Game) : Game → Prop :=
| effect_start (player_name : string) :
    effect s (mkGame (Some (Player.new player_name)) true false (rooms s) None
                (heap s))
| effect_seen (p : Player.t) (room : Room.t) :
    game_started s = true →
    player s = Some p →
    rooms s !! Player.current_room p = Some room →
    effect s
      (set_rooms
         (<[Player.current_room p := Room.set_visited true room]> (rooms s)) s)
| effect_spawn (p : Player.t) (room : Room.t) (t : loc) (template : Enemy.t) :
    game_started s = true →
    player s = Some p →
    rooms s !! Player.current_room p = Some room →
    t ∈ Room.enemies room →
    current_enemy s = None →
    heap s !! t = Some template →
    effect s
      (set_current_enemy (Some (fresh (dom (heap s))))
         (set_heap (<[fresh (dom (heap s)) := template]> (heap s)) s))
| effect_move (p : Player.t) (room : Room.t) (d : Direction) (target : string) :
    game_started s = true →
    current_enemy s = None →
    player s = Some p →
    rooms s !! Player.current_room p = Some room →
    lookup_exit d (Room.exits room) = Some target →
    effect s (set_player (Some (Player.set_current_room target p)) s)
| effect_take (p : Player.t) (room : Room.t) (item : Item.t)
      (items : list Item.t) :
    game_started s = true →
    player s = Some p →
    rooms s !! Player.current_room p = Some room →
    item ∈ Room.items room →
    list_remove item (Room.items room) = Some items →
    effect s
      (set_rooms
         (<[Player.current_room p := Room.set_items items room]> (rooms s))
         (set_player
            (Some (Player.set_inventory (Player.inventory p ++ [item]) p)) s))
| effect_gold (p : Player.t) (amount : Z) :
    player s = Some p →
    0 < amount →
    effect s (set_player (Some (Player.set_gold (Player.gold p + amount) p)) s)
| effect_attack (l : loc) (e : Enemy.t) (p : Player.t) :
    game_started s = true →
    current_enemy s = Some l →
    heap s !! l = Some e →
    player s = Some p →
    effect s (snd (attack s))
| effect_use (p : Player.t) (item : Item.t) (items : list Item.t) :
    game_started s = true →
    player s = Some p →
    item ∈ Player.inventory p →
    Item.item_type item = POTION →
    list_remove item (Player.inventory p) = Some items →
    effect s
      (set_player
         (Some (Player.set_inventory items
                  (Player.set_health
                     (Z.min (Player.max_health p)
                        (Player.health p + Item.healing item)) p))) s).

(** No item of the world takes health away when used. *)
Definition healing_items (w : gmap string Room.t) : Prop :=
  map_Forall (λ _ room, Forall (λ item, 0 ≤ Item.healing item) (Room.items room))
    w.

Definition health_inv (s : Game) : Prop :=
  healing_items (rooms s) ∧
  ∀ p, player s = Some p →
    Forall (λ item, 0 ≤ Item.healing item) (Player.inventory p) ∧
    0 < Player.max_health p ∧
    Player.health p ≤ Player.max_health p ∧
    (game_over s = false → 0 < Player.health p).

(** Every reference in a room's enemy list points into the store. *)
Definition templates_allocated (w : gmap string Room.t) (h : gmap loc Enemy.t)
  : Prop :=
  map_Forall (λ _ room, Forall (λ t, is_Some (h !! t)) (Room.enemies room)) w.

Definition template_inv (w : gmap string Room.t) (h : gmap loc Enemy.t)
    (s : Game) : Prop :=
  (∀ k, Room.enemies <$> rooms s !! k = Room.enemies <$> w !! k) ∧
  (∀ t, is_Some (h !! t) → heap s !! t = h !! t) ∧
  (∀ l, current_enemy s = Some l → h !! l = None).

(** The gold a [take] of [item] adds. *)
Definition gold_value (item : Item.t) : Z :=
  if decide (Item.item_type item = TREASURE) then
    if String.eqb (Item.name item) "Gold Coins" then 50
    else if String.eqb (Item.name item) "Treasure Chest" then 200
    else 0
  else 0.

(** What a session may have changed of a room [r0] of the world: items
    taken away and the visited flag raised. *)
Definition room_frame (r0 r : Room.t) : Prop :=
  Room.name r = Room.name r0 ∧
  Room.description r = Room.description r0 ∧
  Room.exits r = Room.exits r0 ∧
  Room.enemies r = Room.enemies r0 ∧
  sublist (Room.items r) (Room.items r0) ∧
  (Room.visited r0 = true → Room.visited r = true).

Definition world_inv (w : gmap string Room.t) (s : Game) : Prop :=
  (∀ k, option_Forall2 room_frame (w !! k) (rooms s !! k)) ∧
  (∀ p item, player s = Some p → item ∈ Player.inventory p →
             ∃ k r0, w !! k = Some r0 ∧ item ∈ Room.items r0).

(** The starting room exists and every exit leads to a room. *)
Definition world_closed (w : gmap string Room.t) : Prop :=
  is_Some (w !! "entrance") ∧
  map_Forall (λ _ room, Forall (λ e, is_Some (w !! e.2)) (Room.exits room)) w.

(** In a started session the player stands in a room of the world, and an
    active enemy is in the store. *)
Definition located_inv (w : gmap string Room.t) (s : Game) : Prop :=
  (game_started s = true →
   ∃ p, player s = Some p ∧ is_Some (w !! Player.current_room p)) ∧
  (∀ l, current_enemy s = Some l → is_Some (heap s !! l)).

(** What the methods rely on to run without raising. *)
Definition safe (s : Game) : Prop :=
  (game_started s = true →
   ∃ p room, player s = Some p ∧ rooms s !! Player.current_room p = Some room) ∧
  is_Some (rooms s !! "entrance") ∧
  (∀ k room t, rooms s !! k = Some room → t ∈ Room.enemies room →
               is_Some (heap s !! t)) ∧
  (∀ k room d target,
     rooms s !! k = Some room →
     lookup_exit d (Room.exits room) = Some target →
     is_Some (rooms s !! target)) ∧
  (∀ l, current_enemy s = Some l → is_Some (heap s !! l)).

(** The level the player has reached fixes the health limit. *)
Definition level_inv (s : Game) : Prop :=
  ∀ p, player s = Some p →
       1 ≤ Player.level p ∧
       Player.max_health p = 100 + 20 * (Player.level p - 1).

(** The player's gold is the gold value of what is carried. *)
Definition gold_inv (s : Game) : Prop :=
  ∀ p, player s = Some p →
       Player.gold p = zsum (gold_value <$> Player.inventory p).

(** The active enemy is a copy of a template of the room the player is
    in, with its name, damage and experience reward. *)
Definition enemy_inv (h : gmap loc Enemy.t) (s : Game) : Prop :=
  ∀ l, current_enemy s = Some l →
    ∃ p room t e template,
      player s = Some p ∧
      rooms s !! Player.current_room p = Some room ∧
      t ∈ Room.enemies room ∧
      heap s !! l = Some e ∧
      h !! t = Some template ∧
      Enemy.name e = Enemy.name template ∧
      Enemy.damage e = Enemy.damage template ∧
      Enemy.exp e = Enemy.exp template.



(** * Properties *)

(** ** Unfolding computations *)

Ltac unfold_M :=
  unfold update_player, self_player, self_rooms, store_room, deref, store,
    alloc, mbind, M_bind, mret, M_ret, get, modify, raise in *.

Ltac split_M :=
  unfold_M; simpl in *;
  repeat (case_match; simpl in *; simplify_eq);
  simpl; try done.

(** A list of distinct closed terms has no duplicates. *)
Ltac solve_distinct :=
  repeat (apply NoDup_cons_2;
          [rewrite ?elem_of_cons, elem_of_nil; intuition discriminate|]);
  apply NoDup_nil_2.

(** ** The room-entry check *)

Lemma _get_room_description_player (rnd : nat) (s : Game) :
  player (snd (_get_room_description rnd s)) = player s.
Proof. unfold _get_room_description. split_M. Qed.

Lemma _get_room_description_flags (rnd : nat) (s : Game) :
  game_started (snd (_get_room_description rnd s)) = game_started s ∧
  game_over (snd (_get_room_description rnd s)) = game_over s.
Proof. unfold _get_room_description. split_M. Qed.

(** ** Navigation *)

(** C5: in a started session with an active enemy, [move] answers with the
    in-combat rejection whatever its direction argument is, and the session
    is left as it was. *)
Theorem move_in_combat (s : Game) (rnd : nat) (direction : string) (l : loc) :
  game_started s = true →
  current_enemy s = Some l →
  move rnd direction s = (inr InCombat, s).
Proof.
  intros Hstarted Henemy. unfold move. unfold_M. simpl.
  rewrite Hstarted, Henemy. reflexivity.
Qed.

Lemma move_in_combat_witness :
  move 7 "sideways" facing_bat = (inr InCombat, facing_bat).
Proof.
  apply (move_in_combat facing_bat 7 "sideways" 4%positive);
    vm_compute; reflexivity.
Defined.

(** [lookup_exit] on a dictionary: the keys of [exits] are distinct. *)
Lemma lookup_exit_Some (d : Direction) (exits : list (Direction * string))
    (target : string) :
  NoDup (fst <$> exits) →
  (d, target) ∈ exits →
  lookup_exit d exits = Some target.
Proof.
  induction exits as [|[d' target'] exits IH]; intros Hkeys Hexit.
  - inversion Hexit.
  - simpl. rewrite fmap_cons in Hkeys. apply NoDup_cons in Hkeys as [Hd' Hkeys].
    destruct (decide (d' = d)) as [->|Hd].
    + apply elem_of_cons in Hexit as [[= ->]|Hrest]; [reflexivity|].
      exfalso. apply Hd'. apply (list_elem_of_fmap_2 fst) in Hrest. exact Hrest.
    + apply elem_of_cons in Hexit as [[= ? ?]|Hrest]; [congruence|].
      apply IH; assumption.
Qed.

Lemma lookup_exit_None (d : Direction) (exits : list (Direction * string)) :
  (∀ target, (d, target) ∉ exits) → lookup_exit d exits = None.
Proof.
  induction exits as [|[d' target'] exits IH]; intros Hnone; [reflexivity|].
  simpl. destruct (decide (d' = d)) as [->|Hd].
  - exfalso. apply (Hnone target'). left.
  - apply IH. intros target Hin. apply (Hnone target). by right.
Qed.

Lemma Direction_of_value_value (d : Direction) :
  Direction_of_value (Direction_value d) = Some d.
Proof. destruct d; reflexivity. Qed.

Lemma Direction_of_value_None (v : string) :
  (∀ d, v ≠ Direction_value d) → Direction_of_value v = None.
Proof.
  intros Hnone. unfold Direction_of_value.
  destruct (String.eqb_spec v "north") as [->|_];
    [destruct (Hnone NORTH); reflexivity|].
  destruct (String.eqb_spec v "south") as [->|_];
    [destruct (Hnone SOUTH); reflexivity|].
  destruct (String.eqb_spec v "east") as [->|_];
    [destruct (Hnone EAST); reflexivity|].
  destruct (String.eqb_spec v "west") as [->|_];
    [destruct (Hnone WEST); reflexivity|].
  reflexivity.
Qed.

(** C4: in a started session without an active enemy, in a room whose
    exits are a dictionary (no direction listed twice), [move] with a
    string that is the value of direction [d] up to case sets
    [current_room] to the target the room's exits give for [d], and
    touches no other field of the player; when the exits have no entry for
    [d], or the string is the value of no direction, it answers with a
    rejection and the session is left as it was. *)
Theorem move_follows_exits (s : Game) (rnd : nat) (direction : string)
    (p : Player.t) (room : Room.t) :
  game_started s = true →
  current_enemy s = None →
  player s = Some p →
  rooms s !! Player.current_room p = Some room →
  NoDup (fst <$> Room.exits room) →
  (∀ d target,
     lower direction = Direction_value d →
     (d, target) ∈ Room.exits room →
     player (snd (move rnd direction s))
       = Some (Player.set_current_room target p)) ∧
  (∀ d,
     lower direction = Direction_value d →
     (∀ target, (d, target) ∉ Room.exits room) →
     move rnd direction s = (inr (NoSuchExit direction), s)) ∧
  ((∀ d, lower direction ≠ Direction_value d) →
   move rnd direction s = (inr (InvalidDirection direction), s)).
Proof.
  intros Hstarted Henemy Hplayer Hroom Hkeys.
  destruct s as [pl started over rs enemy hp]; simpl in *; subst.
  repeat split.
  - intros d target Hvalue Hin.
    assert (Direction_of_value (lower direction) = Some d) as Hd
      by (rewrite Hvalue; apply Direction_of_value_value).
    pose proof (lookup_exit_Some d _ target Hkeys Hin) as Hexit.
    unfold move. unfold_M.
    repeat progress (simpl; rewrite ?Hd, ?Hroom, ?Hexit).
    match goal with
    | |- context [_get_room_description rnd ?s1] =>
        pose proof (_get_room_description_player rnd s1) as Hkeep;
        destruct (_get_room_description rnd s1) as [[e|text] s2]
    end; simpl in *; exact Hkeep.
  - intros d Hvalue Hnone.
    assert (Direction_of_value (lower direction) = Some d) as Hd
      by (rewrite Hvalue; apply Direction_of_value_value).
    pose proof (lookup_exit_None d _ Hnone) as Hexit.
    unfold move. unfold_M.
    repeat progress (simpl; rewrite ?Hd, ?Hroom, ?Hexit). reflexivity.
  - intros Hnone. apply Direction_of_value_None in Hnone.
    unfold move. unfold_M. simpl. rewrite Hnone. reflexivity.
Qed.

Lemma move_follows_exits_witness :
  player (snd (move 0 "NORTH" bat_beaten))
    = Some (Player.mk "Ann" 76 100 [] "treasure_room" 0 1 15) ∧
  move 0 "South" just_started = (inr (NoSuchExit "South"), just_started) ∧
  move 0 "up" bat_beaten = (inr (InvalidDirection "up"), bat_beaten).
Proof.
  split; [|split].
  - refine (proj1 (move_follows_exits bat_beaten 0 "NORTH"
                     (Player.mk "Ann" 76 100 [] "main_cavern" 0 1 15)
                     (Room.set_visited true main_cavern)
                     eq_refl eq_refl eq_refl eq_refl _)
              NORTH "treasure_room" eq_refl _).
    + simpl. solve_distinct.
    + left.
  - refine (proj1 (proj2 (move_follows_exits just_started 0 "South"
                     (Player.new "Ann") (Room.set_visited true entrance)
                     eq_refl eq_refl eq_refl eq_refl _))
              SOUTH eq_refl _).
    + simpl. solve_distinct.
    + intros target Hin. apply list_elem_of_singleton in Hin. discriminate.
  - refine (proj2 (proj2 (move_follows_exits bat_beaten 0 "up"
                     (Player.mk "Ann" 76 100 [] "main_cavern" 0 1 15)
                     (Room.set_visited true main_cavern)
                     eq_refl eq_refl eq_refl eq_refl _)) _).
    + simpl. solve_distinct.
    + intros d. destruct d; discriminate.
Defined.

(** ** Combat *)

(** What one [attack] does to the session, as a function of the active
    enemy's dictionary [e] and the player [p] before the call. *)
Lemma attack_unfold (s : Game) (l : loc) (e : Enemy.t) (p : Player.t) :
  game_started s = true →
  current_enemy s = Some l →
  heap s !! l = Some e →
  player s = Some p →
  let total_damage := 5 + weapon_damage (Player.inventory p) in
  let enemy :=
    Enemy.mk (Enemy.name e) (Enemy.health e - total_damage)
             (Enemy.damage e) (Enemy.exp e) in
  let hit := set_heap (<[l := enemy]> (heap s)) s in
  attack s =
    if Enemy.health enemy <=? 0 then
      let p1 :=
        Player.set_experience (Player.experience p + Enemy.exp e) p in
      let won := set_current_enemy None hit in
      let result :=
        [YouAttack (Enemy.name e) total_damage;
         Defeated (Enemy.name e) (Enemy.exp e)] in
      if Player.level p1 * 50 <=? Player.experience p1 then
        let p2 :=
          Player.set_health (Player.max_health p + 20)
            (Player.set_max_health (Player.max_health p + 20)
               (Player.set_level (Player.level p + 1) p1)) in
        (inr (AttackText (result ++ [LevelUp (Player.level p + 1)])),
         set_player (Some p2) won)
      else (inr (AttackText result), set_player (Some p1) won)
    else
      let actual_damage :=
        Z.max 1 (Enemy.damage e - armor_defense (Player.inventory p)) in
      let p1 := Player.set_health (Player.health p - actual_damage) p in
      let hurt := set_player (Some p1) hit in
      let result :=
        [YouAttack (Enemy.name e) total_damage;
         EnemyAttacks (Enemy.name e) actual_damage;
         EnemyHealth (Enemy.health enemy);
         YourHealth (Player.health p1)] in
      if Player.health p1 <=? 0 then
        (inr (AttackText (result ++ [YouAreDefeated])),
         set_game_over true hurt)
      else (inr (AttackText result), hurt).
Proof.
  intros Hstarted Henemy Hheap Hplayer.
  destruct s as [pl started over rs enemy hp]; simpl in *; subst.
  unfold attack. unfold_M.
  repeat progress (simpl; rewrite ?Hheap).
  repeat (case_match; simpl in *; simplify_eq); reflexivity.
Qed.

Lemma zsum_Permutation (l1 l2 : list Z) : l1 ≡ₚ l2 → zsum l1 = zsum l2.
Proof.
  unfold zsum. induction 1; simpl; lia.
Qed.

(** [weapon_damage] on an inventory split into its weapons and the rest. *)
Lemma weapon_damage_split (inventory weapons others : list Item.t) :
  inventory ≡ₚ weapons ++ others →
  Forall (λ item, Item.item_type item = WEAPON) weapons →
  Forall (λ item, Item.item_type item ≠ WEAPON) others →
  weapon_damage inventory = foldr Z.add 0 (Item.damage <$> weapons).
Proof.
  intros Hsplit Hweapons Hothers. unfold weapon_damage.
  change (foldr Z.add 0 (Item.damage <$> weapons))
    with (zsum (Item.damage <$> weapons)).
  apply zsum_Permutation. rewrite Hsplit, filter_app.
  assert (filter (λ item, Item.item_type item = WEAPON) weapons = weapons)
    as ->.
  { clear Hsplit. induction Hweapons as [|x l Hx _ IH]; [reflexivity|].
    rewrite filter_cons, decide_True by exact Hx. by rewrite IH. }
  assert (filter (λ item, Item.item_type item = WEAPON) others = []) as ->.
  { clear Hsplit. induction Hothers as [|x l Hx _ IH]; [reflexivity|].
    rewrite filter_cons, decide_False by exact Hx. exact IH. }
  rewrite app_nil_r. reflexivity.
Qed.

(** C6: with an active enemy of health [H] and an inventory made of the
    weapons [weapons], whose damage values sum to [D], and of items
    [others] that are not weapons, one [attack] leaves the enemy's
    dictionary with health [H - (5 + D)]; when that is positive the enemy
    stays active, and when it is at most 0 the enemy's experience reward is
    added to the player, the active enemy is cleared, the reply has no
    retaliation line, the game-over flag is untouched, and the player's
    health is the one before the call unless the levelling check fires and
    resets it. *)
Theorem attack_offensive_phase (s : Game) (l : loc) (e : Enemy.t)
    (p : Player.t) (weapons others : list Item.t) :
  game_started s = true →
  current_enemy s = Some l →
  heap s !! l = Some e →
  player s = Some p →
  Player.inventory p ≡ₚ weapons ++ others →
  Forall (λ item, Item.item_type item = WEAPON) weapons →
  Forall (λ item, Item.item_type item ≠ WEAPON) others →
  let H := Enemy.health e in
  let D := foldr Z.add 0 (Item.damage <$> weapons) in
  let s' := snd (attack s) in
  heap s' !! l
    = Some (Enemy.mk (Enemy.name e) (H - (5 + D)) (Enemy.damage e)
              (Enemy.exp e)) ∧
  (0 < H - (5 + D) → current_enemy s' = Some l) ∧
  (H - (5 + D) ≤ 0 →
     current_enemy s' = None ∧
     game_over s' = game_over s ∧
     ∃ p',
       player s' = Some p' ∧
       Player.experience p' = Player.experience p + Enemy.exp e ∧
       Player.inventory p' = Player.inventory p ∧
       (if Player.level p * 50 <=? Player.experience p'
        then Player.health p' = Player.max_health p + 20 ∧
             fst (attack s)
               = inr (AttackText [YouAttack (Enemy.name e) (5 + D);
                                  Defeated (Enemy.name e) (Enemy.exp e);
                                  LevelUp (Player.level p + 1)])
        else Player.health p' = Player.health p ∧
             fst (attack s)
               = inr (AttackText [YouAttack (Enemy.name e) (5 + D);
                                  Defeated (Enemy.name e) (Enemy.exp e)]))).
Proof.
  intros Hstarted Henemy Hheap Hplayer Hsplit Hweapons Hothers H D s'.
  pose proof (weapon_damage_split _ _ _ Hsplit Hweapons Hothers) as Hsum.
  fold D in Hsum.
  subst s'. rewrite (attack_unfold s l e p) by assumption.
  rewrite Hsum. fold H. simpl.
  destruct (Z.leb_spec (H - (5 + D)) 0) as [Hdead|Halive].
  - destruct (Z.leb_spec (Player.level p * 50)
                (Player.experience p + Enemy.exp e)) as [Hup|Hsame];
      simpl; rewrite lookup_insert_eq;
      (split; [reflexivity|]); (split; [lia|]); intros _;
      (split; [reflexivity|]); (split; [reflexivity|]);
      eexists; (split; [reflexivity|]); simpl;
      (split; [reflexivity|]); (split; [reflexivity|]).
    + destruct (Z.leb_spec (Player.level p * 50)
                  (Player.experience p + Enemy.exp e)); [done|lia].
    + destruct (Z.leb_spec (Player.level p * 50)
                  (Player.experience p + Enemy.exp e)); [lia|done].
  - destruct (Z.leb_spec
                (Player.health p
                 - Z.max 1 (Enemy.damage e
                            - armor_defense (Player.inventory p))) 0);
      simpl; rewrite lookup_insert_eq;
      (split; [reflexivity|]); (split; [intros _; exact Henemy|]); lia.
Qed.

Lemma attack_offensive_phase_witness :
  heap (snd (attack armed_facing_bat)) !! 4%positive
    = Some (Enemy.mk "Cave Bat" (20 - (5 + 5)) 8 15) ∧
  current_enemy (snd (attack armed_facing_bat)) = Some 4%positive ∧
  current_enemy (run [Attack; Attack] armed_facing_bat) = None ∧
  ∃ p',
    player (run [Attack; Attack] armed_facing_bat) = Some p' ∧
    Player.experience p' = 0 + 15 ∧
    Player.health p' = 92.
Proof.
  pose (sword := Item.mk "Rusty Sword" "A basic sword with some rust" WEAPON
                   5 0 0).
  destruct (attack_offensive_phase armed_facing_bat 4%positive
              (Enemy.mk "Cave Bat" 20 8 15)
              (Player.mk "Ann" 100 100 [sword] "main_cavern" 0 1 0)
              [sword] [] eq_refl eq_refl eq_refl eq_refl)
    as (Hblow & Halive & _).
  { reflexivity. }
  { repeat constructor. }
  { constructor. }
  destruct (attack_offensive_phase (run [Attack] armed_facing_bat) 4%positive
              (Enemy.mk "Cave Bat" 10 8 15)
              (Player.mk "Ann" 92 100 [sword] "main_cavern" 0 1 0)
              [sword] [] eq_refl eq_refl eq_refl eq_refl)
    as (_ & _ & Hdead).
  { reflexivity. }
  { repeat constructor. }
  { constructor. }
  split; [exact Hblow|]. split; [apply Halive; reflexivity|].
  destruct Hdead as (Hnone & _ & p' & Hp' & Hexp & _ & Hhealth);
    [vm_compute; discriminate|].
  split; [exact Hnone|]. exists p'. split; [exact Hp'|].
  split; [exact Hexp|]. rewrite Hexp in Hhealth. exact (proj1 Hhealth).
Defined.

(** C7: when the enemy survives the player's blow, with enemy damage [E]
    and carried armor summing to [F], the call lowers the player's health
    by exactly [max 1 (E - F)] and changes nothing else of the player; the
    amount is at least 1, and it is exactly 1 whenever [E - F ≤ 0]. *)
Theorem attack_defensive_phase (s : Game) (l : loc) (e : Enemy.t)
    (p : Player.t) :
  game_started s = true →
  current_enemy s = Some l →
  heap s !! l = Some e →
  player s = Some p →
  0 < Enemy.health e - (5 + weapon_damage (Player.inventory p)) →
  let E := Enemy.damage e in
  let F := armor_defense (Player.inventory p) in
  player (snd (attack s))
    = Some (Player.set_health (Player.health p - Z.max 1 (E - F)) p) ∧
  1 ≤ Z.max 1 (E - F) ∧
  (E - F ≤ 0 →
   player (snd (attack s)) = Some (Player.set_health (Player.health p - 1) p)).
Proof.
  intros Hstarted Henemy Hheap Hplayer Halive E F.
  assert (player (snd (attack s))
          = Some (Player.set_health (Player.health p - Z.max 1 (E - F)) p))
    as Hhurt.
  { rewrite (attack_unfold s l e p) by assumption. simpl.
    destruct (Z.leb_spec
                (Enemy.health e - (5 + weapon_damage (Player.inventory p))) 0);
      [lia|].
    fold E. fold F.
    destruct (Z.leb_spec (Player.health p - Z.max 1 (E - F)) 0);
      reflexivity. }
  split; [exact Hhurt|]. split; [lia|].
  intros Hfloor. rewrite Hhurt. do 2 f_equal. lia.
Qed.

Lemma attack_defensive_phase_witness :
  Player.health <$> player armored_facing_bat = Some 64 ∧
  Player.health <$> player (snd (attack armored_facing_bat)) = Some (64 - 1).
Proof.
  split; [vm_compute; reflexivity|].
  rewrite (proj2 (proj2 (attack_defensive_phase armored_facing_bat 6%positive
                    (Enemy.mk "Cave Bat" 20 8 15)
                    (Player.mk "Ann" 64 100
                       [Item.mk "Leather Armor" "Basic leather protection"
                          ARMOR 0 10 0]
                       "main_cavern" 0 1 40)
                    eq_refl eq_refl eq_refl eq_refl eq_refl)));
    [reflexivity|vm_compute; discriminate].
Defined.

(** C8: a player at level 1 with experience 0 who defeats an enemy worth
    50 experience or more comes out of that [attack] at level 2 (one level,
    however large the award), with [max_health] 20 higher and [health]
    equal to the new [max_health]. *)
Theorem attack_first_level_up (s : Game) (l : loc) (e : Enemy.t)
    (p : Player.t) :
  game_started s = true →
  current_enemy s = Some l →
  heap s !! l = Some e →
  player s = Some p →
  Enemy.health e - (5 + weapon_damage (Player.inventory p)) ≤ 0 →
  Player.level p = 1 →
  Player.experience p = 0 →
  50 ≤ Enemy.exp e →
  ∃ p',
    player (snd (attack s)) = Some p' ∧
    Player.level p' = 2 ∧
    Player.experience p' = Enemy.exp e ∧
    Player.max_health p' = Player.max_health p + 20 ∧
    Player.health p' = Player.max_health p'.
Proof.
  intros Hstarted Henemy Hheap Hplayer Hdead Hlevel Hexp Haward.
  rewrite (attack_unfold s l e p) by assumption. simpl.
  destruct (Z.leb_spec
              (Enemy.health e - (5 + weapon_damage (Player.inventory p))) 0);
    [|lia].
  destruct (Z.leb_spec (Player.level p * 50)
              (Player.experience p + Enemy.exp e)); [|lia].
  eexists. split; [reflexivity|]. simpl. repeat split; lia.
Qed.

Lemma attack_first_level_up_witness :
  ∃ p',
    player (snd (attack newcomer_facing_dragon)) = Some p' ∧
    Player.level p' = 2 ∧
    Player.experience p' = 100 ∧
    Player.max_health p' = 100 + 20 ∧
    Player.health p' = Player.max_health p'.
Proof.
  apply (attack_first_level_up newcomer_facing_dragon 9%positive
           (Enemy.mk "Dragon Guardian" 30 20 100)
           (Player.mk "Ann" 40 100
              [Item.mk "Diamond Sword" "A legendary blade" WEAPON 25 0 0]
              "treasure_room" 0 1 0));
    vm_compute; (reflexivity || discriminate).
Defined.

(** ** Using items *)

(** The item the loops of [take] and [use] stop at is the first one, in
    list order, whose lowered name is the lowered argument. *)
Lemma find_item_first (item_name : string) (l : list Item.t) (i : nat)
    (item : Item.t) :
  l !! i = Some item →
  lower (Item.name item) = lower item_name →
  (∀ j other, (j < i)%nat → l !! j = Some other →
              lower (Item.name other) ≠ lower item_name) →
  find_item item_name l = Some item.
Proof.
  revert i. induction l as [|x l IH]; intros i Hi Hname Hfirst.
  - discriminate.
  - simpl. destruct i as [|i]; simpl in Hi.
    + injection Hi as ->. apply String.eqb_eq in Hname. rewrite Hname.
      reflexivity.
    + destruct (String.eqb_spec (lower (Item.name x)) (lower item_name))
        as [Hx|Hx].
      * exfalso. apply (Hfirst 0%nat x); [lia|reflexivity|exact Hx].
      * apply (IH i); [exact Hi|exact Hname|].
        intros j other Hj Hother.
        apply (Hfirst (S j) other); [lia|exact Hother].
Qed.

(** ** Looking around *)

Lemma look_respawn_counterexample :
  Player.current_room <$> player facing_bat = Some "main_cavern" ∧
  Room.enemies <$> rooms bat_beaten !! "main_cavern" = Some [1%positive] ∧
  current_enemy facing_bat = Some 4%positive ∧
  bat_beaten = run [Attack; Attack; Attack; Attack] facing_bat ∧
  Player.current_room <$> player bat_beaten = Some "main_cavern" ∧
  current_enemy bat_beaten = None ∧
  current_enemy (snd (look 0 bat_beaten)) = Some 5%positive ∧
  heap (snd (look 0 bat_beaten)) !! 5%positive
    = Some (Enemy.mk "Cave Bat" 20 8 15).
Proof. repeat split; vm_compute; reflexivity. Qed.

(** What the room-entry check does in a started session whose current
    room exists. *)
Lemma _get_room_description_unfold (rnd : nat) (s : Game) (p : Player.t)
    (room : Room.t) :
  game_started s = true →
  player s = Some p →
  rooms s !! Player.current_room p = Some room →
  let seen :=
    set_rooms (<[Player.current_room p := Room.set_visited true room]> (rooms s))
      s in
  _get_room_description rnd s =
    match Room.enemies room, current_enemy s with
    | t :: ts, None =>
        match heap s !! random_choice rnd t ts with
        | Some template =>
            let l := fresh (dom (heap s)) in
            (inr (EnemyAppears (Room.description room) (Enemy.name template)
                    (Enemy.health template)),
             set_current_enemy (Some l)
               (set_heap (<[l := template]> (heap s)) seen))
        | None => (inl (Dangling (random_choice rnd t ts)), seen)
        end
    | _, _ => (inr (RoomText (Room.description room)), seen)
    end.
Proof.
  intros Hstarted Hplayer Hroom.
  destruct s as [pl started over rs enemy hp]; simpl in *; subst.
  unfold _get_room_description. unfold_M.
  repeat progress (simpl; rewrite ?Hroom).
  repeat (case_match; simpl in *; simplify_eq); reflexivity.
Qed.

Lemma random_choice_elem {A} (rnd : nat) (x : A) (rest : list A) :
  random_choice rnd x rest ∈ x :: rest.
Proof.
  unfold random_choice. apply list_elem_of_In, nth_In.
  change (List.length (x :: rest)) with (S (List.length rest)).
  apply Nat.mod_upper_bound. discriminate.
Qed.

(** [look] changes the session exactly as the room-entry check does. *)
Lemma look_state (rnd : nat) (s : Game) :
  snd (look rnd s) = snd (_get_room_description rnd s).
Proof.
  unfold look. unfold_M. simpl.
  destruct (game_started s) eqn:Hstarted; simpl;
    [destruct (player s) as [p|] eqn:Hplayer; simpl;
     [destruct (rooms s !! Player.current_room p) as [room|] eqn:Hroom; simpl;
      [destruct (_get_room_description rnd s) as [[e|text] s']; reflexivity|]|]|];
    unfold _get_room_description; unfold_M;
    repeat progress (simpl; rewrite ?Hstarted, ?Hplayer, ?Hroom);
    reflexivity.
Qed.

(** C2, amended: [look] runs the same room-entry check as an arrival.  In
    a started session whose current room lists at least one enemy
    template, a [look] made while no enemy is active instantiates one: the
    active enemy becomes a newly allocated copy of the template drawn from
    that room's list, at the template's health; a [look] made while an
    enemy is active leaves that enemy in place. *)
Theorem look_runs_entry_check (s : Game) (rnd : nat) (p : Player.t)
    (room : Room.t) (t : loc) (ts : list loc) (template : Enemy.t) :
  game_started s = true →
  player s = Some p →
  rooms s !! Player.current_room p = Some room →
  Room.enemies room = t :: ts →
  heap s !! random_choice rnd t ts = Some template →
  snd (look rnd s) = snd (_get_room_description rnd s) ∧
  (current_enemy s = None →
   ∃ l,
     current_enemy (snd (look rnd s)) = Some l ∧
     heap s !! l = None ∧
     heap (snd (look rnd s)) !! l = Some template ∧
     random_choice rnd t ts ∈ Room.enemies room) ∧
  (∀ l, current_enemy s = Some l →
        current_enemy (snd (look rnd s)) = Some l).
Proof.
  intros Hstarted Hplayer Hroom Htemplates Htemplate.
  split; [apply look_state|].
  rewrite look_state.
  rewrite (_get_room_description_unfold rnd s p room) by assumption.
  rewrite Htemplates. split.
  - intros Hnone. rewrite Hnone, Htemplate. simpl.
    exists (fresh (dom (heap s))). split; [reflexivity|].
    split; [apply not_elem_of_dom, is_fresh|].
    split; [apply lookup_insert_eq|].
    apply random_choice_elem.
  - intros l Hsome. rewrite Hsome. simpl. exact Hsome.
Qed.

Lemma look_runs_entry_check_witness :
  snd (look 3 bat_beaten) = snd (_get_room_description 3 bat_beaten) ∧
  (current_enemy bat_beaten = None →
   ∃ l,
     current_enemy (snd (look 3 bat_beaten)) = Some l ∧
     heap bat_beaten !! l = None ∧
     heap (snd (look 3 bat_beaten)) !! l
       = Some (Enemy.mk "Cave Bat" 20 8 15) ∧
     random_choice 3 1%positive []
       ∈ Room.enemies (Room.set_visited true main_cavern)) ∧
  (∀ l, current_enemy bat_beaten = Some l →
        current_enemy (snd (look 3 bat_beaten)) = Some l).
Proof.
  apply (look_runs_entry_check bat_beaten 3
           (Player.mk "Ann" 76 100 [] "main_cavern" 0 1 15)
           (Room.set_visited true main_cavern) 1%positive []
           (Enemy.mk "Cave Bat" 20 8 15));
    vm_compute; reflexivity.
Defined.

(** ** After a defeat *)

Lemma game_over_counterexample :
  game_over slain_by_dragon = true ∧
  Player.health <$> player slain_by_dragon = Some (-4) ∧
  fst (attack slain_by_dragon)
    = inr (AttackText [YouAttack "Dragon Guardian" 5;
                       EnemyAttacks "Dragon Guardian" 20;
                       EnemyHealth 75; YourHealth (-24); YouAreDefeated]) ∧
  Player.health <$> player (snd (attack slain_by_dragon)) = Some (-24) ∧
  fst (take "diamond sword" slain_by_dragon) = inr (PickedUp "Diamond Sword") ∧
  Player.inventory <$> player (snd (take "diamond sword" slain_by_dragon))
    = Some [Item.mk "Diamond Sword" "A legendary blade" WEAPON 25 0 0] ∧
  fst (move 0 "south" slain_by_dragon) = inr InCombat ∧
  fst (use "diamond sword" slain_by_dragon)
    = inr (ItemNotInInventory "diamond sword").
Proof. repeat split; vm_compute; reflexivity. Qed.

Lemma _get_room_description_game_over (rnd : nat) (s : Game) :
  _get_room_description rnd (set_game_over true s)
    = with_game_over (_get_room_description rnd s).
Proof.
  destruct s as [pl started over rs enemy hp].
  unfold with_game_over, _get_room_description. split_M.
Qed.

Lemma move_game_over (rnd : nat) (direction : string) (s : Game) :
  move rnd direction (set_game_over true s)
    = with_game_over (move rnd direction s).
Proof.
  destruct s as [pl started over rs enemy hp].
  unfold with_game_over, move. unfold_M. simpl.
  destruct started; [|reflexivity]. simpl.
  destruct enemy; [reflexivity|].
  destruct (Direction_of_value (lower direction)) as [d|]; [|reflexivity].
  destruct pl as [p|]; [|reflexivity]. simpl.
  destruct (rs !! Player.current_room p) as [r|]; [|reflexivity]. simpl.
  destruct (lookup_exit d (Room.exits r)) as [target|]; [|reflexivity]. simpl.
  match goal with
  | |- context [_get_room_description rnd ?s1] =>
      change s1 with (set_game_over true
        (mkGame (Some (Player.set_current_room target p)) true over rs None hp))
  end.
  rewrite _get_room_description_game_over. unfold with_game_over.
  destruct (_get_room_description rnd _) as [[e|text] s2]; reflexivity.
Qed.

(** C1, amended: only [get_game_state] reads the game-over flag.  On a
    session with the flag set, [move], [take], [use] and [attack] give the
    reply and make the changes to the player, the rooms and the active
    enemy that they would without it, and the flag stays set; [status] and
    [inventory] return their usual payloads and change nothing; and
    [get_game_state], once the game is started, returns the game-over
    text. *)
Theorem game_over_only_read_by_get_game_state (s : Game) (rnd : nat)
    (direction item_name : string) :
  move rnd direction (set_game_over true s)
    = with_game_over (move rnd direction s) ∧
  take item_name (set_game_over true s) = with_game_over (take item_name s) ∧
  use item_name (set_game_over true s) = with_game_over (use item_name s) ∧
  attack (set_game_over true s) = with_game_over (attack s) ∧
  status (set_game_over true s) = with_game_over (status s) ∧
  inventory (set_game_over true s) = with_game_over (inventory s) ∧
  snd (status (set_game_over true s)) = set_game_over true s ∧
  snd (inventory (set_game_over true s)) = set_game_over true s ∧
  get_game_state (set_game_over true s)
    = (inr (if game_started s then GameOverText else NotStarted),
       set_game_over true s).
Proof.
  split; [apply move_game_over|].
  destruct s as [pl started over rs enemy hp].
  unfold with_game_over.
  repeat split.
  - unfold take. split_M.
  - unfold use. split_M.
  - unfold attack. split_M.
  - unfold status. split_M.
  - unfold inventory. unfold_M. simpl.
    destruct started, pl as [[? ? ? [|] ? ? ? ?]|]; reflexivity.
  - unfold status. split_M.
  - unfold inventory. unfold_M. simpl.
    destruct started, pl as [[? ? ? [|] ? ? ? ?]|]; reflexivity.
  - unfold get_game_state. split_M.
Qed.

(** ** The effects of a call *)

Lemma find_item_elem (item_name : string) (l : list Item.t) (item : Item.t) :
  find_item item_name l = Some item → item ∈ l.
Proof.
  induction l as [|x l IH]; simpl; [discriminate|].
  destruct (String.eqb _ _).
  - intros [= ->]. left.
  - intros H. right. auto.
Qed.

Lemma find_item_name (item_name : string) (l : list Item.t) (item : Item.t) :
  find_item item_name l = Some item →
  lower (Item.name item) = lower item_name.
Proof.
  induction l as [|x l IH]; simpl; [discriminate|].
  destruct (String.eqb_spec (lower (Item.name x)) (lower item_name)).
  - intros [= <-]. assumption.
  - assumption.
Qed.

Lemma list_remove_elem (x : Item.t) (l : list Item.t) :
  x ∈ l → is_Some (list_remove x l).
Proof.
  induction l as [|y l IH]; intros Hx.
  - inversion Hx.
  - simpl. destruct (decide (y = x)); [eauto|].
    destruct IH as [l' Hl'].
    + inversion Hx; subst; [done|assumption].
    + rewrite Hl'. simpl. eauto.
Qed.

Lemma list_remove_Permutation (x : Item.t) (l l' : list Item.t) :
  list_remove x l = Some l' → l ≡ₚ x :: l'.
Proof.
  revert l'. induction l as [|y l IH]; intros l'; simpl; [discriminate|].
  destruct (decide (y = x)) as [->|].
  - intros [= ->]. reflexivity.
  - destruct (list_remove x l) as [l0|]; simpl; [|discriminate].
    intros [= <-]. rewrite (IH l0 eq_refl). apply Permutation_swap.
Qed.

Lemma list_remove_sublist (x : Item.t) (l l' : list Item.t) :
  list_remove x l = Some l' → sublist l' l.
Proof.
  revert l'. induction l as [|y l IH]; intros l'; simpl; [discriminate|].
  destruct (decide (y = x)).
  - intros [= ->]. by apply sublist_cons.
  - destruct (list_remove x l) as [l0|]; simpl; [|discriminate].
    intros [= <-]. apply sublist_skip, IH. reflexivity.
Qed.

Lemma entry_effect (rnd : nat) (s : Game) :
  rtc effect s (snd (_get_room_description rnd s)).
Proof.
  destruct (game_started s) eqn:Hstarted; cycle 1.
  { unfold _get_room_description. unfold_M.
    repeat progress (simpl; rewrite ?Hstarted). reflexivity. }
  destruct (player s) as [p|] eqn:Hplayer; cycle 1.
  { unfold _get_room_description. unfold_M.
    repeat progress (simpl; rewrite ?Hstarted, ?Hplayer). reflexivity. }
  destruct (rooms s !! Player.current_room p) as [room|] eqn:Hroom; cycle 1.
  { unfold _get_room_description. unfold_M.
    repeat progress (simpl; rewrite ?Hstarted, ?Hplayer, ?Hroom).
    reflexivity. }
  rewrite (_get_room_description_unfold rnd s p room) by assumption.
  pose proof (effect_seen s p room Hstarted Hplayer Hroom) as Hseen.
  destruct (Room.enemies room) as [|t ts] eqn:Htemplates;
    [apply rtc_once, Hseen|].
  destruct (current_enemy s) as [l|] eqn:Henemy; [apply rtc_once, Hseen|].
  destruct (heap s !! random_choice rnd t ts) as [template|] eqn:Htemplate;
    [|apply rtc_once, Hseen].
  simpl. eapply rtc_l; [exact Hseen|]. apply rtc_once.
  match goal with
  | |- effect ?s1 _ =>
      apply (effect_spawn s1 p (Room.set_visited true room)
               (random_choice rnd t ts) template);
        simpl; try assumption
  end.
  - apply lookup_insert_eq.
  - rewrite Htemplates. apply random_choice_elem.
Qed.

Lemma start_game_state (rnd : nat) (player_name : string) (s : Game) :
  snd (start_game rnd player_name s)
    = snd (_get_room_description rnd
             (mkGame (Some (Player.new player_name)) true false (rooms s) None
                (heap s))).
Proof.
  unfold start_game. unfold_M. simpl.
  destruct (_get_room_description rnd _) as [[e|text] s']; reflexivity.
Qed.

Lemma move_state (rnd : nat) (direction : string) (s : Game) :
  snd (move rnd direction s) = s ∨
  ∃ p room d target,
    game_started s = true ∧ current_enemy s = None ∧ player s = Some p ∧
    rooms s !! Player.current_room p = Some room ∧
    Direction_of_value (lower direction) = Some d ∧
    lookup_exit d (Room.exits room) = Some target ∧
    snd (move rnd direction s)
      = snd (_get_room_description rnd
               (set_player (Some (Player.set_current_room target p)) s)).
Proof.
  destruct s as [pl started over rs enemy hp].
  unfold move. unfold_M. simpl.
  destruct started; [|left; reflexivity]. simpl.
  destruct enemy; [left; reflexivity|].
  destruct (Direction_of_value (lower direction)) as [d|] eqn:Hd;
    [|left; reflexivity].
  destruct pl as [p|]; [|left; reflexivity]. simpl.
  destruct (rs !! Player.current_room p) as [r|] eqn:Hroom;
    [|left; reflexivity]. simpl.
  destruct (lookup_exit d (Room.exits r)) as [target|] eqn:Hexit;
    [|left; reflexivity]. simpl.
  right. exists p, r, d, target. repeat (split; [done|]).
  unfold set_player; simpl.
  destruct (_get_room_description rnd _) as [[e|text] s2]; reflexivity.
Qed.

Lemma take_state (item_name : string) (s : Game) :
  snd (take item_name s) = s ∨
  ∃ p room item items,
    game_started s = true ∧ player s = Some p ∧
    rooms s !! Player.current_room p = Some room ∧
    find_item item_name (Room.items room) = Some item ∧
    list_remove item (Room.items room) = Some items ∧
    let taken :=
      set_rooms
        (<[Player.current_room p := Room.set_items items room]> (rooms s))
        (set_player
           (Some (Player.set_inventory (Player.inventory p ++ [item]) p)) s) in
    let p1 := Player.set_inventory (Player.inventory p ++ [item]) p in
    snd (take item_name s) =
      if decide (Item.item_type item = TREASURE) then
        if String.eqb (Item.name item) "Gold Coins" then
          set_player (Some (Player.set_gold (Player.gold p + 50) p1)) taken
        else if String.eqb (Item.name item) "Treasure Chest" then
          set_player (Some (Player.set_gold (Player.gold p + 200) p1)) taken
        else taken
      else taken.
Proof.
  destruct s as [pl started over rs enemy hp].
  unfold take. unfold_M. simpl.
  destruct started; [|left; reflexivity]. simpl.
  destruct pl as [p|]; [|left; reflexivity]. simpl.
  destruct (rs !! Player.current_room p) as [room|] eqn:Hroom;
    [|left; reflexivity]. simpl.
  destruct (find_item item_name (Room.items room)) as [item|] eqn:Hitem;
    [|left; reflexivity]. simpl.
  destruct (list_remove_elem item (Room.items room)) as [items Hitems];
    [eapply find_item_elem, Hitem|].
  rewrite Hitems. simpl.
  right. exists p, room, item, items. repeat (split; [done|]).
  simpl. unfold set_player, set_rooms. simpl.
  repeat (case_match; simpl); reflexivity.
Qed.

Lemma use_state (item_name : string) (s : Game) :
  snd (use item_name s) = s ∨
  ∃ p item items,
    game_started s = true ∧ player s = Some p ∧
    find_item item_name (Player.inventory p) = Some item ∧
    Item.item_type item = POTION ∧
    contains "health" (lower (Item.name item)) = true ∧
    list_remove item (Player.inventory p) = Some items ∧
    use item_name s =
      (inr (UsedPotion (Item.name item) (Item.healing item)),
       set_player
         (Some (Player.set_inventory items
                  (Player.set_health
                     (Z.min (Player.max_health p)
                        (Player.health p + Item.healing item)) p))) s).
Proof.
  destruct s as [pl started over rs enemy hp].
  unfold use. unfold_M. simpl.
  destruct started; [|left; reflexivity]. simpl.
  destruct pl as [p|]; [|left; reflexivity]. simpl.
  destruct (find_item item_name (Player.inventory p)) as [item|] eqn:Hitem;
    [|left; reflexivity]. simpl.
  destruct (bool_decide_reflect (Item.item_type item = POTION)) as [Hpotion|];
    [|left; reflexivity]. simpl.
  destruct (contains "health" (lower (Item.name item))) eqn:Hhealth;
    [|left; reflexivity]. simpl.
  destruct (list_remove_elem item (Player.inventory p)) as [items Hitems];
    [eapply find_item_elem, Hitem|].
  rewrite Hitems. simpl.
  right. exists p, item, items. repeat (split; [done|]). reflexivity.
Qed.

Lemma attack_state (s : Game) :
  snd (attack s) = s ∨
  ∃ l e p,
    game_started s = true ∧ current_enemy s = Some l ∧
    heap s !! l = Some e ∧ player s = Some p.
Proof.
  destruct s as [pl started over rs enemy hp].
  unfold attack. unfold_M. simpl.
  destruct started; [|left; reflexivity]. simpl.
  destruct enemy as [l|]; [|left; reflexivity].
  destruct pl as [p|]; [|left; reflexivity]. simpl.
  destruct (hp !! l) as [e|] eqn:Hheap; [|left; reflexivity].
  right. exists l, e, p. done.
Qed.

Lemma read_only_state (s : Game) :
  snd (inventory s) = s ∧ snd (status s) = s ∧ snd (help s) = s ∧
  snd (get_game_state s) = s.
Proof.
  destruct s as [pl started over rs enemy hp]. repeat split.
  - unfold inventory. unfold_M. simpl.
    destruct started, pl as [[? ? ? [|] ? ? ? ?]|]; reflexivity.
  - unfold status. split_M.
  - unfold get_game_state. split_M.
Qed.

Lemma exec_effect (c : Command) (s : Game) : rtc effect s (snd (exec c s)).
Proof.
  destruct c as [rnd name|rnd|rnd direction|item_name| | | |item_name| |];
    simpl.
  - rewrite start_game_state.
    eapply rtc_l; [apply (effect_start s name)|]. apply entry_effect.
  - rewrite look_state. apply entry_effect.
  - destruct (move_state rnd direction s)
      as [->|(p & room & d & target & ? & ? & ? & ? & ? & ? & ->)];
      [reflexivity|].
    eapply rtc_l; [eapply effect_move; eassumption|]. apply entry_effect.
  - destruct (take_state item_name s)
      as [->|(p & room & item & items & ? & ? & ? & Hitem & ? & Htaken)];
      [reflexivity|].
    simpl in Htaken. rewrite Htaken.
    eapply rtc_l;
      [eapply (effect_take s p room item items); try eassumption;
       eapply find_item_elem, Hitem|].
    repeat case_match; try reflexivity; apply rtc_once.
    + apply (effect_gold _
               (Player.set_inventory (Player.inventory p ++ [item]) p) 50);
        [reflexivity|lia].
    + apply (effect_gold _
               (Player.set_inventory (Player.inventory p ++ [item]) p) 200);
        [reflexivity|lia].
  - rewrite (proj1 (read_only_state s)). reflexivity.
  - rewrite (proj1 (proj2 (read_only_state s))). reflexivity.
  - destruct (attack_state s) as [->|(l & e & p & ? & ? & ? & ?)];
      [reflexivity|].
    apply rtc_once. eapply effect_attack; eassumption.
  - destruct (use_state item_name s)
      as [->|(p & item & items & ? & ? & Hitem & ? & ? & ? & ->)];
      [reflexivity|].
    apply rtc_once. simpl.
    eapply effect_use; try eassumption. eapply find_item_elem, Hitem.
  - reflexivity.
  - rewrite (proj2 (proj2 (proj2 (read_only_state s)))). reflexivity.
Qed.

Lemma attack_rooms (s : Game) : rooms (snd (attack s)) = rooms s.
Proof.
  destruct (attack_state s) as [->|(l & e & p & ? & ? & ? & ?)];
    [reflexivity|].
  rewrite (attack_unfold s l e p) by assumption. simpl.
  repeat case_match; reflexivity.
Qed.

(** What a [move] along an existing exit does. *)
Lemma move_unfold (rnd : nat) (direction : string) (s : Game) (p : Player.t)
    (room : Room.t) (d : Direction) (target : string) :
  game_started s = true →
  current_enemy s = None →
  player s = Some p →
  rooms s !! Player.current_room p = Some room →
  Direction_of_value (lower direction) = Some d →
  lookup_exit d (Room.exits room) = Some target →
  let r :=
    _get_room_description rnd
      (set_player (Some (Player.set_current_room target p)) s) in
  move rnd direction s =
    (match fst r with
     | inl e => inl e
     | inr text => inr (Moved direction text)
     end, snd r).
Proof.
  intros Hstarted Henemy Hplayer Hroom Hd Hexit.
  destruct s as [pl started over rs enemy hp]; simpl in *; subst.
  unfold move. unfold_M.
  repeat progress (simpl; rewrite ?Hd, ?Hroom, ?Hexit).
  unfold set_player. simpl.
  destruct (_get_room_description rnd _) as [[e|text] s2]; reflexivity.
Qed.

(** ** Reachable sessions *)

Lemma reachable_run (s0 s : Game) (cs : list Command) :
  reachable s0 s → reachable s0 (run cs s).
Proof.
  revert s. induction cs as [|c cs IH]; intros s Hs; simpl; [exact Hs|].
  apply IH, reachable_step, Hs.
Qed.

Lemma reachable_trans (s0 s1 s2 : Game) :
  reachable s0 s1 → reachable s1 s2 → reachable s0 s2.
Proof.
  intros H01 H12. induction H12; [exact H01|]. by apply reachable_step.
Qed.

(** A property of the initial session that every effect preserves holds
    in every reachable session. *)
Lemma reachable_invariant (P : Game → Prop) (s0 s : Game) :
  P s0 →
  (∀ s1 s2, P s1 → effect s1 s2 → P s2) →
  reachable s0 s → P s.
Proof.
  intros Hinit Hstep Hs. induction Hs as [|s c Hs IH]; [exact Hinit|].
  pose proof (exec_effect c s) as Hc. clear Hs.
  induction Hc as [|s1 s2 s3 H12 _ IH23]; [exact IH|].
  apply IH23. eapply Hstep; eassumption.
Qed.

(** ** Health bounds *)

Lemma list_remove_Forall (P : Item.t → Prop) (x : Item.t) (l l' : list Item.t) :
  list_remove x l = Some l' → Forall P l → Forall P l'.
Proof.
  intros Hl' Hl. apply list_remove_Permutation in Hl'.
  rewrite Hl' in Hl. by inversion Hl.
Qed.

Lemma health_inv_effect (s s' : Game) :
  health_inv s → effect s s' → health_inv s'.
Proof.
  intros [Hrooms Hplayer] Heffect.
  destruct Heffect
    as [name|p room Hstarted Hp Hroom
       |p room t template Hstarted Hp Hroom Ht Henemy Htemplate
       |p room d target Hstarted Henemy Hp Hroom Hexit
       |p room item items Hstarted Hp Hroom Hitem Hitems
       |p amount Hp Hamount
       |l e p Hstarted Henemy Hheap Hp
       |p item items Hstarted Hp Hitem Hpotion Hitems].
  - split; [exact Hrooms|]. simpl. intros p [= <-]. simpl.
    repeat split; try lia. constructor.
  - split; [|exact Hplayer]. simpl.
    apply map_Forall_insert_2; [|exact Hrooms].
    exact (Hrooms _ _ Hroom).
  - split; [exact Hrooms|exact Hplayer].
  - split; [exact Hrooms|]. simpl. intros p' [= <-]. simpl.
    exact (Hplayer p Hp).
  - destruct (Hplayer p Hp) as (Hinv & ? & ? & ?).
    pose proof (Hrooms _ _ Hroom) as Hroom_ok. simpl in Hroom_ok.
    split; simpl.
    + apply map_Forall_insert_2; [|exact Hrooms]. simpl.
      eapply list_remove_Forall; eassumption.
    + intros p' [= <-]. simpl. repeat split; try assumption.
      apply Forall_app. split; [exact Hinv|].
      constructor; [|constructor].
      rewrite Forall_forall in Hroom_ok. apply Hroom_ok, Hitem.
  - split; [exact Hrooms|]. simpl. intros p' [= <-]. simpl.
    exact (Hplayer p Hp).
  - destruct (Hplayer p Hp) as (Hinv & ? & ? & ?).
    rewrite (attack_unfold s l e p) by assumption. simpl.
    repeat case_match; simpl; (split; [exact Hrooms|]);
      intros p' [= <-]; simpl; repeat split; try assumption; try lia;
      try discriminate.
  - destruct (Hplayer p Hp) as (Hinv & ? & ? & Hpos).
    split; [exact Hrooms|]. simpl. intros p' [= <-]. simpl.
    repeat split; try assumption; try lia.
    + eapply list_remove_Forall; eassumption.
    + intros Hover. specialize (Hpos Hover).
      rewrite Forall_forall in Hinv. specialize (Hinv item Hitem).
      simpl in Hinv. lia.
Qed.

Lemma health_bounds_counterexample :
  reachable ASCIIGame slain_by_dragon ∧
  game_started slain_by_dragon = true ∧
  game_over slain_by_dragon = true ∧
  Player.health <$> player slain_by_dragon = Some (-4) ∧
  Player.health <$> player (run [GetGameState; Status; Look 0] slain_by_dragon)
    = Some (-4) ∧
  Player.health <$> player (run [Attack] slain_by_dragon) = Some (-24) ∧
  Player.health <$> player (run [Attack; Attack] slain_by_dragon)
    = Some (-44).
Proof.
  split; [repeat apply reachable_run; apply reachable_refl|].
  repeat split; vm_compute; reflexivity.
Qed.

(** C3, amended: in every session reachable from the constructor, over
    any world none of whose items has a negative [healing], the player's
    health is at most [max_health], and it is positive as long as the
    game-over flag is not set.  Once the flag is set nothing bounds the
    health from below: it stays where the defeat left it and every further
    [attack] that the enemy survives lowers it again. *)
Theorem health_bounds (w : gmap string Room.t) (h : gmap loc Enemy.t)
    (s : Game) (p : Player.t) :
  healing_items w →
  reachable (new_session w h) s →
  player s = Some p →
  Player.health p ≤ Player.max_health p ∧
  (game_over s = false → 0 < Player.health p).
Proof.
  intros Hw Hs Hp.
  assert (health_inv s) as [_ Hinv].
  { apply (reachable_invariant health_inv (new_session w h));
      [|apply health_inv_effect|exact Hs].
    split; [exact Hw|]. intros p0 [=]. }
  destruct (Hinv p Hp) as (_ & _ & ? & ?). split; assumption.
Qed.

Lemma create_world_healing_items : healing_items (fst _create_world).
Proof.
  unfold healing_items, _create_world. simpl.
  repeat apply map_Forall_insert_2; try apply map_Forall_empty; simpl;
    repeat constructor; simpl; lia.
Qed.

Lemma health_bounds_witness :
  Player.health (Player.mk "Ann" 76 100 [] "main_cavern" 0 1 15)
    ≤ Player.max_health (Player.mk "Ann" 76 100 [] "main_cavern" 0 1 15) ∧
  (game_over bat_beaten = false →
   0 < Player.health (Player.mk "Ann" 76 100 [] "main_cavern" 0 1 15)).
Proof.
  apply (health_bounds (fst _create_world) (snd _create_world) bat_beaten
           (Player.mk "Ann" 76 100 [] "main_cavern" 0 1 15)).
  - exact create_world_healing_items.
  - repeat apply reachable_run. apply reachable_refl.
  - vm_compute. reflexivity.
Defined.

(** ** Enemy templates *)

Lemma template_inv_fresh (w : gmap string Room.t) (h : gmap loc Enemy.t)
    (s : Game) :
  template_inv w h s → h !! fresh (dom (heap s)) = None.
Proof.
  intros (_ & Hheap & _).
  destruct (h !! fresh (dom (heap s))) as [e|] eqn:Hfresh; [|reflexivity].
  exfalso. apply (is_fresh (dom (heap s))).
  apply elem_of_dom. rewrite Hheap; rewrite Hfresh; eauto.
Qed.

Lemma template_inv_effect (w : gmap string Room.t) (h : gmap loc Enemy.t)
    (s s' : Game) :
  template_inv w h s → effect s s' → template_inv w h s'.
Proof.
  intros Hinv Heffect. pose proof Hinv as (Hrooms & Hheap & Henemy0).
  destruct Heffect
    as [name|p room Hstarted Hp Hroom
       |p room t template Hstarted Hp Hroom Ht Henemy Htemplate
       |p room d target Hstarted Henemy Hp Hroom Hexit
       |p room item items Hstarted Hp Hroom Hitem Hitems
       |p amount Hp Hamount
       |l e p Hstarted Henemy Hheap_l Hp
       |p item items Hstarted Hp Hitem Hpotion Hitems].
  - repeat split; simpl; try assumption. discriminate.
  - repeat split; simpl; try assumption. intros k.
    destruct (decide (k = Player.current_room p)) as [->|Hk].
    + rewrite lookup_insert_eq, <- Hrooms, Hroom. reflexivity.
    + rewrite lookup_insert_ne by done. apply Hrooms.
  - pose proof (template_inv_fresh w h s Hinv) as Hfresh.
    repeat split; simpl; try assumption.
    + intros t0 Ht0. rewrite lookup_insert_ne; [apply Hheap, Ht0|].
      intros <-. rewrite Hfresh in Ht0. by destruct Ht0.
    + intros l [= <-]. exact Hfresh.
  - repeat split; simpl; assumption.
  - repeat split; simpl; try assumption. intros k.
    destruct (decide (k = Player.current_room p)) as [->|Hk].
    + rewrite lookup_insert_eq, <- Hrooms, Hroom. reflexivity.
    + rewrite lookup_insert_ne by done. apply Hrooms.
  - repeat split; simpl; assumption.
  - pose proof (Henemy0 l Henemy) as Hl.
    rewrite (attack_unfold s l e p) by assumption. simpl.
    repeat case_match; simpl; repeat split; simpl; try assumption;
      try discriminate.
    all: intros t0 Ht0; rewrite lookup_insert_ne; [apply Hheap, Ht0|];
      intros <-; rewrite Hl in Ht0; by destruct Ht0.
  - repeat split; simpl; assumption.
Qed.

Lemma template_inv_reachable (w : gmap string Room.t) (h : gmap loc Enemy.t)
    (s : Game) :
  reachable (new_session w h) s → template_inv w h s.
Proof.
  apply (reachable_invariant (template_inv w h));
    [|apply template_inv_effect].
  repeat split; simpl; try done.
Qed.

Lemma template_inv_lookup (w : gmap string Room.t) (h : gmap loc Enemy.t)
    (s : Game) (k : string) (room : Room.t) (t : loc) :
  templates_allocated w h →
  template_inv w h s →
  rooms s !! k = Some room →
  t ∈ Room.enemies room →
  is_Some (h !! t) ∧ heap s !! t = h !! t.
Proof.
  intros Hw (Hrooms & Hheap & _) Hroom Ht.
  specialize (Hrooms k). rewrite Hroom in Hrooms. simpl in Hrooms.
  destruct (w !! k) as [room0|] eqn:Hroom0; [|discriminate].
  injection Hrooms as Hsame.
  pose proof (Hw k room0 Hroom0) as Hall. simpl in Hall.
  rewrite Forall_forall in Hall. rewrite Hsame in Ht.
  split; [apply Hall, Ht|apply Hheap, Hall, Ht].
Qed.

(** C10: in every session reachable from the constructor, over any world
    whose enemy lists refer to allocated dictionaries, [attack] leaves the
    rooms as they were (names, descriptions, exits, items, enemy lists),
    and the dictionaries the rooms list as templates keep their contents,
    which are those the world was built with: the dictionary [attack]
    writes to is a copy.  So on any later arrival, by [move], in a room
    that lists templates while no enemy is active, the enemy instantiated
    is a newly allocated copy of the drawn template with the values the
    world was built with. *)
Theorem attack_keeps_templates (w : gmap string Room.t)
    (h : gmap loc Enemy.t) (s : Game) :
  templates_allocated w h →
  reachable (new_session w h) s →
  let s' := snd (attack s) in
  rooms s' = rooms s ∧
  (∀ k room t,
     rooms s !! k = Some room → t ∈ Room.enemies room →
     is_Some (heap s !! t) ∧
     heap s' !! t = heap s !! t ∧ heap s !! t = h !! t) ∧
  (∀ s'' rnd direction p room d target arrival t ts,
     reachable s' s'' →
     game_started s'' = true →
     current_enemy s'' = None →
     player s'' = Some p →
     rooms s'' !! Player.current_room p = Some room →
     Direction_of_value (lower direction) = Some d →
     lookup_exit d (Room.exits room) = Some target →
     rooms s'' !! target = Some arrival →
     Room.enemies arrival = t :: ts →
     ∃ l template,
       h !! random_choice rnd t ts = Some template ∧
       heap s'' !! l = None ∧
       current_enemy (snd (move rnd direction s'')) = Some l ∧
       heap (snd (move rnd direction s'')) !! l = Some template).
Proof.
  intros Hw Hs s'.
  assert (reachable (new_session w h) s') as Hs'.
  { apply (reachable_step _ s Attack), Hs. }
  pose proof (template_inv_reachable w h s Hs) as Hinv.
  pose proof (template_inv_reachable w h s' Hs') as Hinv'.
  split; [apply attack_rooms|]. split.
  - intros k room t Hroom Ht.
    destruct (template_inv_lookup w h s k room t Hw Hinv Hroom Ht)
      as [Hsome Hsame].
    destruct (template_inv_lookup w h s' k room t Hw Hinv') as [_ Hsame'];
      [unfold s'; rewrite attack_rooms; exact Hroom|exact Ht|].
    rewrite Hsame, Hsame'. done.
  - intros s'' rnd direction p room d target arrival t ts Hlater Hstarted
      Henemy Hplayer Hroom Hd Hexit Harrival Htemplates.
    pose proof (template_inv_reachable w h s''
                  (reachable_trans _ _ _ Hs' Hlater)) as Hinv''.
    destruct (template_inv_lookup w h s'' target arrival
                (random_choice rnd t ts) Hw Hinv'' Harrival)
      as [[template Htemplate] Hsame].
    { rewrite Htemplates. apply random_choice_elem. }
    exists (fresh (dom (heap s''))), template.
    split; [exact Htemplate|].
    split; [apply not_elem_of_dom, is_fresh|].
    rewrite (move_unfold rnd direction s'' p room d target) by assumption.
    simpl.
    rewrite (_get_room_description_unfold rnd _
               (Player.set_current_room target p) arrival)
      by (simpl; first [assumption|reflexivity]).
    rewrite Htemplates. simpl. rewrite Henemy, Hsame, Htemplate. simpl.
    split; [reflexivity|apply lookup_insert_eq].
Qed.

Lemma create_world_templates_allocated :
  templates_allocated (fst _create_world) (snd _create_world).
Proof.
  unfold templates_allocated, _create_world. simpl.
  repeat apply map_Forall_insert_2; try apply map_Forall_empty; simpl;
    repeat constructor; eexists; vm_compute; reflexivity.
Qed.

Lemma attack_keeps_templates_witness :
  rooms (snd (attack facing_bat)) = rooms facing_bat ∧
  heap (snd (attack facing_bat)) !! 1%positive
    = Some (Enemy.mk "Cave Bat" 20 8 15).
Proof.
  destruct (attack_keeps_templates (fst _create_world) (snd _create_world)
              facing_bat create_world_templates_allocated)
    as (Hrooms & Hheap & _).
  - repeat apply reachable_run. apply reachable_refl.
  - split; [exact Hrooms|].
    destruct (Hheap "main_cavern" (Room.set_visited true main_cavern)
                1%positive) as (_ & Hkept & Hsame).
    + vm_compute. reflexivity.
    + left.
    + etrans; [exact Hkept|]. etrans; [exact Hsame|]. reflexivity.
Defined.

(** ** Items that cannot be used *)








(** * More properties of the methods *)

(** ** Rejections, restarts and the direction values *)

(** X8: before [start_game] every method but [start_game] and [help]
    answers that the game is not started, and [help] answers with the help
    text; none of them changes the session. *)
Theorem not_started_rejections (s : Game) (rnd : nat)
    (direction item_name : string) :
  game_started s = false →
  look rnd s = (inr NotStarted, s) ∧
  move rnd direction s = (inr NotStarted, s) ∧
  take item_name s = (inr NotStarted, s) ∧
  inventory s = (inr NotStarted, s) ∧
  status s = (inr NotStarted, s) ∧
  attack s = (inr NotStarted, s) ∧
  use item_name s = (inr NotStarted, s) ∧
  get_game_state s = (inr NotStarted, s) ∧
  help s = (inr HelpText, s).
Proof.
  intros Hstarted.
  unfold look, move, take, inventory, status, attack, use, get_game_state,
    help.
  unfold_M. simpl. rewrite Hstarted. simpl. repeat split.
Qed.

Lemma not_started_rejections_witness :
  look 0 ASCIIGame = (inr NotStarted, ASCIIGame) ∧
  move 0 "north" ASCIIGame = (inr NotStarted, ASCIIGame) ∧
  take "rusty sword" ASCIIGame = (inr NotStarted, ASCIIGame) ∧
  inventory ASCIIGame = (inr NotStarted, ASCIIGame) ∧
  status ASCIIGame = (inr NotStarted, ASCIIGame) ∧
  attack ASCIIGame = (inr NotStarted, ASCIIGame) ∧
  use "rusty sword" ASCIIGame = (inr NotStarted, ASCIIGame) ∧
  get_game_state ASCIIGame = (inr NotStarted, ASCIIGame) ∧
  help ASCIIGame = (inr HelpText, ASCIIGame).
Proof.
  apply (not_started_rejections ASCIIGame 0 "north" "rusty sword").
  reflexivity.
Defined.

(** X15: [Direction(v)] succeeds exactly on the values of the four
    members: it returns [d] if and only if [v] is [d.value]. *)
Theorem Direction_round_trip (v : string) (d : Direction) :
  Direction_of_value v = Some d ↔ v = Direction_value d.
Proof.
  split.
  - unfold Direction_of_value.
    destruct (String.eqb_spec v "north") as [->|];
      [intros [= <-]; reflexivity|].
    destruct (String.eqb_spec v "south") as [->|];
      [intros [= <-]; reflexivity|].
    destruct (String.eqb_spec v "east") as [->|];
      [intros [= <-]; reflexivity|].
    destruct (String.eqb_spec v "west") as [->|];
      [intros [= <-]; reflexivity|discriminate].
  - intros ->. destruct d; reflexivity.
Qed.

(** ** Taking and using items *)

Lemma find_item_None (item_name : string) (l : list Item.t) :
  find_item item_name l = None ↔
  ∀ item, item ∈ l → lower (Item.name item) ≠ lower item_name.
Proof.
  induction l as [|x l IH]; simpl.
  - split; [intros _ item Hitem; inversion Hitem|reflexivity].
  - destruct (String.eqb_spec (lower (Item.name x)) (lower item_name))
      as [Hx|Hx].
    + split; [discriminate|]. intros Hall. destruct (Hall x); [left|exact Hx].
    + rewrite IH. split.
      * intros Hall item Hitem. inversion Hitem; subst; auto.
      * intros Hall item Hitem. apply Hall. by right.
Qed.

(** [l.remove(x)] where the first element equal to [x] is at index [i]. *)
Lemma list_remove_index (x : Item.t) (l : list Item.t) (i : nat) :
  l !! i = Some x →
  (∀ j, (j < i)%nat → l !! j ≠ Some x) →
  list_remove x l = Some (delete i l).
Proof.
  revert i. induction l as [|y l IH]; intros i Hi Hfirst; [discriminate|].
  simpl. destruct i as [|i]; simpl in *.
  - injection Hi as ->. rewrite decide_True by reflexivity. reflexivity.
  - destruct (decide (y = x)) as [->|Hy].
    + exfalso. apply (Hfirst 0%nat); [lia|reflexivity].
    + rewrite (IH i); [reflexivity|exact Hi|].
      intros j Hj. apply (Hfirst (S j)). lia.
Qed.

(** The element a first-match loop stops at is the one its [remove]
    deletes. *)
Lemma list_remove_first_match (item_name : string) (l : list Item.t) (i : nat)
    (item : Item.t) :
  l !! i = Some item →
  lower (Item.name item) = lower item_name →
  (∀ j other, (j < i)%nat → l !! j = Some other →
              lower (Item.name other) ≠ lower item_name) →
  list_remove item l = Some (delete i l).
Proof.
  intros Hi Hname Hfirst. apply list_remove_index; [exact Hi|].
  intros j Hj Hsame. exact (Hfirst j item Hj Hsame Hname).
Qed.

(** X10: in a started session, with an ASCII argument in a room whose
    item names are ASCII, when the first item of the current room whose
    name equals the argument up to case stands at index [i], [take]
    returns a reply (it raises nothing), appends that item to the end of the
    inventory, deletes index [i] from the room's list, adds the item's gold
    value to the player's gold (50 for the treasure Gold Coins, 200 for the
    treasure Treasure Chest, 0 otherwise) and changes nothing else: the
    other rooms, the active enemy and the flags are as before. *)
Theorem take_moves_first_match (s : Game) (item_name : string) (p : Player.t)
    (room : Room.t) (i : nat) (item : Item.t) :
  game_started s = true →
  player s = Some p →
  rooms s !! Player.current_room p = Some room →
  is_ascii item_name = true →
  Forall (λ item, is_ascii (Item.name item) = true) (Room.items room) →
  Room.items room !! i = Some item →
  lower (Item.name item) = lower item_name →
  (∀ j other, (j < i)%nat → Room.items room !! j = Some other →
              lower (Item.name other) ≠ lower item_name) →
  let s' := snd (take item_name s) in
  (∃ reply, fst (take item_name s) = inr reply) ∧
  player s'
    = Some (Player.set_gold (Player.gold p + gold_value item)
              (Player.set_inventory (Player.inventory p ++ [item]) p)) ∧
  rooms s'
    = <[Player.current_room p := Room.set_items (delete i (Room.items room)) room]>
        (rooms s) ∧
  current_enemy s' = current_enemy s ∧ heap s' = heap s ∧
  game_started s' = true ∧ game_over s' = game_over s.
Proof.
  intros Hstarted Hplayer Hroom _ _ Hi Hname Hfirst.
  pose proof (find_item_first item_name _ i item Hi Hname Hfirst) as Hfind.
  pose proof (list_remove_first_match item_name _ i item Hi Hname Hfirst)
    as Hremove.
  destruct s as [pl started over rs enemy hp].
  destruct p as [name health max_health inv current gold level experience].
  simpl in *; subst.
  unfold take, gold_value. unfold_M.
  repeat progress (simpl; rewrite ?Hroom, ?Hfind, ?Hremove).
  destruct (decide (Item.item_type item = TREASURE));
    [destruct (String.eqb (Item.name item) "Gold Coins");
     [|destruct (String.eqb (Item.name item) "Treasure Chest")]|];
    simpl; rewrite ?Z.add_0_r;
    (split; [eexists; reflexivity|]); repeat split.
Qed.

(** X11: in a started session, with an ASCII argument in a room whose
    item names are ASCII, when no item of the current room has the
    argument's name up to case, [take] answers that the item is not in the
    room and leaves the session as it was. *)
Theorem take_item_not_in_room (s : Game) (item_name : string) (p : Player.t)
    (room : Room.t) :
  game_started s = true →
  player s = Some p →
  rooms s !! Player.current_room p = Some room →
  is_ascii item_name = true →
  Forall (λ item, is_ascii (Item.name item) = true) (Room.items room) →
  (∀ item, item ∈ Room.items room →
           lower (Item.name item) ≠ lower item_name) →
  take item_name s = (inr (ItemNotInRoom item_name), s).
Proof.
  intros Hstarted Hplayer Hroom _ _ Hnone.
  apply find_item_None in Hnone.
  destruct s as [pl started over rs enemy hp]; simpl in *; subst.
  unfold take. unfold_M.
  repeat progress (simpl; rewrite ?Hroom, ?Hnone). reflexivity.
Qed.

(** X12: in a started session, with an ASCII argument and ASCII names in
    the inventory, when no inventory item has the argument's name up to
    case, [use] answers that the item is not in the inventory and
    leaves the session as it was. *)
Theorem use_item_not_in_inventory (s : Game) (item_name : string)
    (p : Player.t) :
  game_started s = true →
  player s = Some p →
  is_ascii item_name = true →
  Forall (λ item, is_ascii (Item.name item) = true) (Player.inventory p) →
  (∀ item, item ∈ Player.inventory p →
           lower (Item.name item) ≠ lower item_name) →
  use item_name s = (inr (ItemNotInInventory item_name), s).
Proof.
  intros Hstarted Hplayer _ _ Hnone.
  apply find_item_None in Hnone.
  destruct s as [pl started over rs enemy hp]; simpl in *; subst.
  unfold use. unfold_M.
  repeat progress (simpl; rewrite ?Hnone). reflexivity.
Qed.

(** X13: in a started session, with an ASCII argument and ASCII names in
    the inventory, when the first inventory item whose name equals the
    argument up to case stands at index [i], is a potion and has
    "health" in its lowered name, [use] sets the health to
    [min max_health (health + healing)], deletes index [i] from the
    inventory, reports the item's name and healing, and changes nothing
    else. *)
Theorem use_health_potion (s : Game) (item_name : string) (p : Player.t)
    (i : nat) (item : Item.t) :
  game_started s = true →
  player s = Some p →
  is_ascii item_name = true →
  Forall (λ item, is_ascii (Item.name item) = true) (Player.inventory p) →
  Player.inventory p !! i = Some item →
  lower (Item.name item) = lower item_name →
  (∀ j other, (j < i)%nat → Player.inventory p !! j = Some other →
              lower (Item.name other) ≠ lower item_name) →
  Item.item_type item = POTION →
  contains "health" (lower (Item.name item)) = true →
  use item_name s =
    (inr (UsedPotion (Item.name item) (Item.healing item)),
     set_player
       (Some (Player.set_inventory (delete i (Player.inventory p))
                (Player.set_health
                   (Z.min (Player.max_health p)
                      (Player.health p + Item.healing item)) p))) s).
Proof.
  intros Hstarted Hplayer _ _ Hi Hname Hfirst Hpotion Hhealth.
  pose proof (find_item_first item_name _ i item Hi Hname Hfirst) as Hfind.
  pose proof (list_remove_first_match item_name _ i item Hi Hname Hfirst)
    as Hremove.
  destruct s as [pl started over rs enemy hp].
  destruct p as [name health max_health inv current gold level experience].
  simpl in *; subst.
  unfold use. unfold_M.
  repeat progress (simpl; rewrite ?Hfind).
  rewrite bool_decide_eq_true_2 by assumption.
  repeat progress (simpl; rewrite ?Hremove, ?Hhealth). reflexivity.
Qed.

Lemma start_game_unfold (rnd : nat) (player_name : string) (s : Game) :
  let r :=
    _get_room_description rnd
      (mkGame (Some (Player.new player_name)) true false (rooms s) None
         (heap s)) in
  start_game rnd player_name s =
    (match fst r with
     | inl e => inl e
     | inr room => inr (Welcome player_name room)
     end, snd r).
Proof.
  unfold start_game. unfold_M. simpl.
  destruct (_get_room_description rnd _) as [[e|text] s']; reflexivity.
Qed.

(** X9: [start_game] on any session, fresh or in play, installs a new
    player (the defaults of the data class under the given name), sets
    [game_started], clears [game_over] and drops the active enemy; an enemy
    active after the call is a newly allocated one.  The world is not
    rebuilt: every room keeps the items, enemy list and exits it had before
    the call.  When the rooms have no "entrance" the call raises the
    [KeyError] of the room lookup. *)
Theorem start_game_restarts (s : Game) (rnd : nat) (player_name : string) :
  let s' := snd (start_game rnd player_name s) in
  player s' = Some (Player.new player_name) ∧
  game_started s' = true ∧
  game_over s' = false ∧
  (∀ k, Room.items <$> rooms s' !! k = Room.items <$> rooms s !! k) ∧
  (∀ k, Room.enemies <$> rooms s' !! k = Room.enemies <$> rooms s !! k) ∧
  (∀ k, Room.exits <$> rooms s' !! k = Room.exits <$> rooms s !! k) ∧
  (∀ l, current_enemy s' = Some l → heap s !! l = None) ∧
  (rooms s !! "entrance" = None →
   fst (start_game rnd player_name s) = inl (KeyError "entrance")).
Proof.
  simpl. rewrite start_game_unfold. simpl.
  set (s1 := mkGame (Some (Player.new player_name)) true false (rooms s) None
               (heap s)).
  destruct (_get_room_description_flags rnd s1) as [Hstarted Hover].
  split; [apply _get_room_description_player|].
  split; [exact Hstarted|]. split; [exact Hover|].
  destruct (rooms s !! "entrance") as [room|] eqn:Hroom; cycle 1.
  { assert (_get_room_description rnd s1 = (inl (KeyError "entrance"), s1))
      as Hraise.
    { unfold _get_room_description, s1. unfold_M.
      repeat progress (simpl; rewrite ?Hroom). reflexivity. }
    rewrite Hraise. simpl. repeat split; try discriminate. }
  rewrite (_get_room_description_unfold rnd s1 (Player.new player_name) room)
    by (simpl; first [assumption|reflexivity]).
  assert (∀ (A : Type) (f : Room.t → A) k,
            f (Room.set_visited true room) = f room →
            f <$> (<["entrance" := Room.set_visited true room]> (rooms s)) !! k
              = f <$> rooms s !! k) as Hkeep.
  { intros A f k Hf. destruct (decide (k = "entrance")) as [->|Hk].
    - rewrite lookup_insert_eq, Hroom. simpl. by rewrite Hf.
    - by rewrite lookup_insert_ne. }
  simpl.
  destruct (Room.enemies room) as [|t ts] eqn:Htemplates; simpl;
    [|destruct (heap s !! random_choice rnd t ts) as [template|]; simpl];
    (split; [intros k; apply Hkeep; reflexivity|]);
    (split; [intros k; apply Hkeep; reflexivity|]);
    (split; [intros k; apply Hkeep; reflexivity|]);
    (split; [|discriminate]); try discriminate.
  intros l [= <-]. apply not_elem_of_dom, is_fresh.
Qed.

Lemma find_item_lower (a b : string) (l : list Item.t) :
  lower a = lower b → find_item a l = find_item b l.
Proof.
  intros Hab. induction l as [|x l IH]; simpl; [reflexivity|].
  rewrite Hab, IH. reflexivity.
Qed.

(** X14: [move], [take] and [use] do not tell apart two arguments that
    differ only in the case of the letters [A]-[Z]: arguments that [lower]
    maps to the same string lead to the same session. *)
Theorem arguments_ignore_case (s : Game) (rnd : nat) (a b : string) :
  lower a = lower b →
  snd (move rnd a s) = snd (move rnd b s) ∧
  snd (take a s) = snd (take b s) ∧
  snd (use a s) = snd (use b s).
Proof.
  intros Hab. destruct s as [pl started over rs enemy hp]. repeat split.
  - unfold move. unfold_M. simpl. rewrite Hab.
    destruct started; [|reflexivity]. simpl.
    destruct enemy; [reflexivity|].
    destruct (Direction_of_value (lower b)) as [d|]; [|reflexivity].
    destruct pl as [p|]; [|reflexivity]. simpl.
    destruct (rs !! Player.current_room p) as [room|]; [|reflexivity]. simpl.
    destruct (lookup_exit d (Room.exits room)) as [target|]; [|reflexivity].
    simpl. destruct (_get_room_description rnd _) as [[e|text] s2];
      reflexivity.
  - unfold take. unfold_M. simpl.
    destruct started; [|reflexivity]. simpl.
    destruct pl as [p|]; [|reflexivity]. simpl.
    destruct (rs !! Player.current_room p) as [room|]; [|reflexivity]. simpl.
    rewrite (find_item_lower a b _ Hab).
    destruct (find_item b (Room.items room)) as [item|]; reflexivity.
  - unfold use. unfold_M. simpl.
    destruct started; [|reflexivity]. simpl.
    destruct pl as [p|]; [|reflexivity]. simpl.
    rewrite (find_item_lower a b _ Hab).
    destruct (find_item b (Player.inventory p)) as [item|]; reflexivity.
Qed.

Lemma arguments_ignore_case_witness :
  snd (move 0 "NORTH" just_started) = snd (move 0 "north" just_started) ∧
  snd (take "NORTH" just_started) = snd (take "north" just_started) ∧
  snd (use "NORTH" just_started) = snd (use "north" just_started).
Proof. apply (arguments_ignore_case just_started 0 "NORTH" "north"). reflexivity. Defined.

Lemma take_moves_first_match_witness :
  let s' := snd (take "RUSTY sword" just_started) in
  (∃ reply, fst (take "RUSTY sword" just_started) = inr reply) ∧
  player s'
    = Some (Player.set_gold
              (Player.gold (Player.new "Ann")
               + gold_value (Item.mk "Rusty Sword"
                               "A basic sword with some rust" WEAPON 5 0 0))
              (Player.set_inventory
                 (Player.inventory (Player.new "Ann")
                  ++ [Item.mk "Rusty Sword" "A basic sword with some rust"
                        WEAPON 5 0 0])
                 (Player.new "Ann"))) ∧
  rooms s'
    = <[Player.current_room (Player.new "Ann")
        := Room.set_items
             (delete 0%nat (Room.items (Room.set_visited true entrance)))
             (Room.set_visited true entrance)]>
        (rooms just_started) ∧
  current_enemy s' = current_enemy just_started ∧
  heap s' = heap just_started ∧
  game_started s' = true ∧ game_over s' = game_over just_started.
Proof.
  apply (take_moves_first_match just_started "RUSTY sword" (Player.new "Ann")
           (Room.set_visited true entrance) 0%nat
           (Item.mk "Rusty Sword" "A basic sword with some rust" WEAPON 5 0 0));
    try (vm_compute; reflexivity).
  - repeat constructor.
  - intros j other Hj. lia.
Defined.

Lemma take_item_not_in_room_witness :
  take "health potion" just_started
    = (inr (ItemNotInRoom "health potion"), just_started).
Proof.
  apply (take_item_not_in_room just_started "health potion" (Player.new "Ann")
           (Room.set_visited true entrance));
    try (vm_compute; reflexivity).
  - repeat constructor.
  - intros item Hitem. apply list_elem_of_singleton in Hitem as ->.
    vm_compute. discriminate.
Defined.

Lemma use_item_not_in_inventory_witness :
  use "health potion" armored_facing_bat
    = (inr (ItemNotInInventory "health potion"), armored_facing_bat).
Proof.
  apply (use_item_not_in_inventory armored_facing_bat "health potion"
           (Player.mk "Ann" 64 100
              [Item.mk "Leather Armor" "Basic leather protection" ARMOR 0 10 0]
              "main_cavern" 0 1 40));
    try (vm_compute; reflexivity).
  - repeat constructor.
  - intros item Hitem. apply list_elem_of_singleton in Hitem as ->.
    vm_compute. discriminate.
Defined.

Lemma use_health_potion_witness :
  use "HEALTH potion" with_potion =
    (inr (UsedPotion "Health Potion" 30),
     set_player (Some (Player.mk "Ann" 100 100 [] "main_cavern" 0 1 15))
       with_potion).
Proof.
  apply (use_health_potion with_potion "HEALTH potion"
           (Player.mk "Ann" 76 100
              [Item.mk "Health Potion" "Restores 30 health" POTION 0 0 30]
              "main_cavern" 0 1 15)
           0%nat (Item.mk "Health Potion" "Restores 30 health" POTION 0 0 30));
    try (vm_compute; reflexivity).
  - repeat constructor.
  - intros j other Hj. lia.
Defined.

(** ** The world during a session *)

Lemma room_frame_refl (r : Room.t) : room_frame r r.
Proof. repeat split; done. Qed.

Lemma world_inv_room (w : gmap string Room.t) (s : Game) (k : string)
    (room : Room.t) :
  world_inv w s → rooms s !! k = Some room →
  ∃ r0, w !! k = Some r0 ∧ room_frame r0 room.
Proof.
  intros [Hrooms _] Hroom. specialize (Hrooms k). rewrite Hroom in Hrooms.
  inversion Hrooms; subst. eauto.
Qed.

Lemma world_inv_insert (w : gmap string Room.t) (s : Game) (k : string)
    (room room' : Room.t) :
  world_inv w s → rooms s !! k = Some room →
  (∀ r0, room_frame r0 room → room_frame r0 room') →
  ∀ k', option_Forall2 room_frame (w !! k') (<[k := room']> (rooms s) !! k').
Proof.
  intros Hinv Hroom Hframe k'.
  destruct (decide (k' = k)) as [->|Hk].
  - rewrite lookup_insert_eq.
    destruct (world_inv_room w s k room Hinv Hroom) as (r0 & -> & Hr0).
    constructor. apply Hframe, Hr0.
  - rewrite lookup_insert_ne by done. apply Hinv.
Qed.

Lemma world_inv_effect (w : gmap string Room.t) (s s' : Game) :
  world_inv w s → effect s s' → world_inv w s'.
Proof.
  intros Hinv Heffect. pose proof Hinv as [Hrooms Hitems].
  destruct Heffect
    as [name|p room Hstarted Hp Hroom
       |p room t template Hstarted Hp Hroom Ht Henemy Htemplate
       |p room d target Hstarted Henemy Hp Hroom Hexit
       |p room item items Hstarted Hp Hroom Hitem Hitems'
       |p amount Hp Hamount
       |l e p Hstarted Henemy Hheap Hp
       |p item items Hstarted Hp Hitem Hpotion Hitems'].
  - split; [exact Hrooms|]. simpl. intros p item [= <-] Hitem.
    inversion Hitem.
  - split; [|exact Hitems]. simpl.
    apply (world_inv_insert w s _ room); [exact Hinv|exact Hroom|].
    intros r0 (? & ? & ? & ? & ? & ?). repeat split; simpl; done.
  - split; [exact Hrooms|exact Hitems].
  - split; [exact Hrooms|]. simpl. intros p' item [= <-]. simpl.
    apply Hitems, Hp.
  - split; simpl.
    + apply (world_inv_insert w s _ room); [exact Hinv|exact Hroom|].
      intros r0 (? & ? & ? & ? & Hsub & ?). repeat split; simpl; try done.
      etrans; [eapply list_remove_sublist, Hitems'|exact Hsub].
    + intros p' item' [= <-]. simpl. rewrite elem_of_app.
      intros [Hold|Hnew]; [exact (Hitems p item' Hp Hold)|].
      apply list_elem_of_singleton in Hnew as ->.
      destruct (world_inv_room w s _ room Hinv Hroom)
        as (r0 & Hr0 & (_ & _ & _ & _ & Hsub & _)).
      exists (Player.current_room p), r0. split; [exact Hr0|].
      eapply elem_of_sublist; eassumption.
  - split; [exact Hrooms|]. simpl. intros p' item [= <-]. simpl.
    apply Hitems, Hp.
  - rewrite (attack_unfold s l e p) by assumption. simpl.
    repeat case_match; simpl; (split; [exact Hrooms|]);
      intros p' item [= <-]; simpl; apply Hitems, Hp.
  - split; [exact Hrooms|]. simpl. intros p' item' [= <-]. simpl.
    intros Hitem'. apply (Hitems p item' Hp).
    eapply elem_of_sublist; [exact Hitem'|].
    eapply list_remove_sublist, Hitems'.
Qed.

(** X2: in every session reachable from the constructor, the rooms are
    those of the world the session was built over, under the same keys,
    with the same names, descriptions, exits and enemy lists; a room's items
    are a sublist of its original items, and a visited flag set in the world
    stays set.  Every item the player carries is an item of some room of
    that world: no call makes an item. *)
Theorem world_is_only_emptied (w : gmap string Room.t) (h : gmap loc Enemy.t)
    (s : Game) :
  reachable (new_session w h) s →
  (∀ k, option_Forall2 room_frame (w !! k) (rooms s !! k)) ∧
  (∀ p item, player s = Some p → item ∈ Player.inventory p →
             ∃ k r0, w !! k = Some r0 ∧ item ∈ Room.items r0).
Proof.
  apply (reachable_invariant (world_inv w)); [|apply world_inv_effect].
  split; simpl.
  - intros k. destruct (w !! k); constructor. apply room_frame_refl.
  - intros p item [=].
Qed.

(** ** Calls that return *)

Lemma lookup_exit_elem (d : Direction) (exits : list (Direction * string))
    (target : string) :
  lookup_exit d exits = Some target → (d, target) ∈ exits.
Proof.
  induction exits as [|[d' target'] exits IH]; simpl; [discriminate|].
  destruct (decide (d' = d)) as [->|].
  - intros [= ->]. left.
  - intros Hrest. right. auto.
Qed.

Lemma located_inv_effect (w : gmap string Room.t) (s s' : Game) :
  world_closed w →
  world_inv w s → located_inv w s → effect s s' → located_inv w s'.
Proof.
  intros [Hentrance Hexits] Hworld [Hlocated Hactive] Heffect.
  destruct Heffect
    as [name|p room Hstarted Hp Hroom
       |p room t template Hstarted Hp Hroom Ht Henemy Htemplate
       |p room d target Hstarted Henemy Hp Hroom Hexit
       |p room item items Hstarted Hp Hroom Hitem Hitems'
       |p amount Hp Hamount
       |l e p Hstarted Henemy Hheap Hp
       |p item items Hstarted Hp Hitem Hpotion Hitems'].
  - split; simpl; [|discriminate]. intros _. eexists. split; [reflexivity|].
    exact Hentrance.
  - split; [exact Hlocated|exact Hactive].
  - split; [exact Hlocated|]. simpl. intros l [= <-].
    rewrite lookup_insert_eq. eauto.
  - split; [|exact Hactive]. simpl. intros _. eexists.
    split; [reflexivity|]. simpl.
    destruct (world_inv_room w s _ room Hworld Hroom)
      as (r0 & Hr0 & (_ & _ & Hsame & _)).
    pose proof (Hexits _ _ Hr0) as Hall. simpl in Hall.
    rewrite Forall_forall in Hall.
    apply lookup_exit_elem in Hexit. rewrite Hsame in Hexit.
    exact (Hall _ Hexit).
  - split; [|exact Hactive]. simpl. intros _. eexists.
    split; [reflexivity|]. simpl.
    destruct (Hlocated Hstarted) as (p' & Hp' & Hsome). by simplify_eq.
  - split; [|exact Hactive]. simpl. intros Hstarted.
    destruct (Hlocated Hstarted) as (p' & Hp' & Hsome). simplify_eq.
    eexists. split; [reflexivity|]. exact Hsome.
  - destruct (Hlocated Hstarted) as (p' & Hp' & Hsome). simplify_eq.
    rewrite (attack_unfold s l e p) by assumption. simpl.
    repeat case_match; simpl; split; simpl; try discriminate;
      try (intros _; eexists; split; [reflexivity|exact Hsome]).
    all: intros l' Hl'; destruct (decide (l' = l)) as [->|];
      [rewrite lookup_insert_eq; eauto
      |rewrite lookup_insert_ne by done; apply Hactive, Hl'].
  - split; [|exact Hactive]. simpl. intros _.
    destruct (Hlocated Hstarted) as (p' & Hp' & Hsome). simplify_eq.
    eexists. split; [reflexivity|]. exact Hsome.
Qed.

Lemma located_inv_reachable (w : gmap string Room.t) (h : gmap loc Enemy.t)
    (s : Game) :
  world_closed w →
  reachable (new_session w h) s → world_inv w s ∧ located_inv w s.
Proof.
  intros Hw.
  apply (reachable_invariant (λ s, world_inv w s ∧ located_inv w s)).
  - split; [|split; simpl; discriminate].
    split; simpl.
    + intros k. destruct (w !! k); constructor. apply room_frame_refl.
    + intros p item [=].
  - intros s1 s2 [Hworld Hlocated] Heffect. split.
    + eapply world_inv_effect; eassumption.
    + eapply located_inv_effect; eassumption.
Qed.

Lemma world_inv_lookup (w : gmap string Room.t) (s : Game) (k : string) :
  world_inv w s → is_Some (w !! k) → is_Some (rooms s !! k).
Proof.
  intros [Hrooms _] [r0 Hr0]. specialize (Hrooms k). rewrite Hr0 in Hrooms.
  inversion Hrooms. eauto.
Qed.

Lemma safe_reachable (w : gmap string Room.t) (h : gmap loc Enemy.t)
    (s : Game) :
  world_closed w → templates_allocated w h →
  reachable (new_session w h) s → safe s.
Proof.
  intros Hclosed Htemplates Hs.
  destruct (located_inv_reachable w h s Hclosed Hs)
    as [Hworld [Hlocated Hactive]].
  pose proof (template_inv_reachable w h s Hs) as Htinv.
  pose proof Hclosed as [Hentrance Hexits].
  repeat split.
  - intros Hstarted. destruct (Hlocated Hstarted) as (p & Hp & Hsome).
    destruct (world_inv_lookup w s _ Hworld Hsome) as [room Hroom]. eauto.
  - apply (world_inv_lookup w s _ Hworld Hentrance).
  - intros k room t Hroom Ht.
    destruct (template_inv_lookup w h s k room t Htemplates Htinv Hroom Ht)
      as [Hsome ->]. exact Hsome.
  - intros k room d target Hroom Hexit.
    destruct (world_inv_room w s k room Hworld Hroom)
      as (r0 & Hr0 & (_ & _ & Hsame & _)).
    pose proof (Hexits _ _ Hr0) as Hall. simpl in Hall.
    rewrite Forall_forall in Hall.
    apply lookup_exit_elem in Hexit. rewrite Hsame in Hexit.
    exact (world_inv_lookup w s _ Hworld (Hall _ Hexit)).
  - exact Hactive.
Qed.

Lemma entry_returns (rnd : nat) (s : Game) (p : Player.t) (room : Room.t) :
  player s = Some p →
  rooms s !! Player.current_room p = Some room →
  (∀ t, t ∈ Room.enemies room → is_Some (heap s !! t)) →
  ∃ text, fst (_get_room_description rnd s) = inr text.
Proof.
  intros Hp Hroom Htemplates.
  destruct (game_started s) eqn:Hstarted; cycle 1.
  { unfold _get_room_description. unfold_M.
    repeat progress (simpl; rewrite ?Hstarted). eauto. }
  rewrite (_get_room_description_unfold rnd s p room) by assumption.
  destruct (Room.enemies room) as [|t ts] eqn:Hlist; [eauto|].
  destruct (current_enemy s); [eauto|].
  destruct (Htemplates (random_choice rnd t ts)) as [template ->];
    [apply random_choice_elem|]. eauto.
Qed.

Lemma safe_returns (s : Game) (c : Command) :
  safe s → ∃ reply, fst (exec c s) = inr reply.
Proof.
  intros (Hlocated & [entrance Hentrance] & Htemplates & Hexits & Hactive).
  destruct (game_started s) eqn:Hstarted; cycle 1.
  { destruct c as [rnd name|rnd|rnd direction|item_name| | | |item_name| |];
      simpl.
    2-10: destruct s as [pl started over rs enemy hp]; simpl in *; subst;
      unfold look, move, take, inventory, status, attack, use, help,
        get_game_state; unfold_M; simpl; eauto.
    rewrite start_game_unfold. simpl.
    destruct (entry_returns rnd
                (mkGame (Some (Player.new name)) true false (rooms s) None
                   (heap s)) (Player.new name) entrance)
      as [text ->]; simpl; eauto. }
  destruct (Hlocated eq_refl) as (p & room & Hp & Hroom).
  destruct c as [rnd name|rnd|rnd direction|item_name| | | |item_name| |];
    simpl.
  - rewrite start_game_unfold. simpl.
    destruct (entry_returns rnd
                (mkGame (Some (Player.new name)) true false (rooms s) None
                   (heap s)) (Player.new name) entrance)
      as [text ->]; simpl; eauto.
  - destruct (entry_returns rnd s p room Hp Hroom
                (λ t, Htemplates _ _ t Hroom)) as [text Htext].
    destruct s as [pl started over rs enemy hp]; simpl in *; subst.
    unfold look. unfold_M.
    repeat progress (simpl; rewrite ?Hroom).
    destruct (_get_room_description rnd _) as [[e|text'] s2]; simpl in *;
      [discriminate|eauto].
  - destruct (current_enemy s) as [l|] eqn:Henemy.
    { destruct s as [pl started over rs enemy hp]; simpl in *; subst.
      unfold move. unfold_M. simpl. eauto. }
    destruct (Direction_of_value (lower direction)) as [d|] eqn:Hd; cycle 1.
    { destruct s as [pl started over rs enemy hp]; simpl in *; subst.
      unfold move. unfold_M. simpl. rewrite Hd. eauto. }
    destruct (lookup_exit d (Room.exits room)) as [target|] eqn:Hexit;
      cycle 1.
    { destruct s as [pl started over rs enemy hp]; simpl in *; subst.
      unfold move. unfold_M.
      repeat progress (simpl; rewrite ?Hd, ?Hroom, ?Hexit). eauto. }
    rewrite (move_unfold rnd direction s p room d target) by assumption.
    simpl.
    destruct (Hexits _ _ _ _ Hroom Hexit) as [arrival Harrival].
    destruct (entry_returns rnd
                (set_player (Some (Player.set_current_room target p)) s)
                (Player.set_current_room target p) arrival)
      as [text ->]; simpl; eauto.
  - destruct s as [pl started over rs enemy hp]; simpl in *; subst.
    unfold take. unfold_M.
    repeat progress (simpl; rewrite ?Hroom).
    destruct (find_item item_name (Room.items room)) as [item|] eqn:Hitem;
      simpl; [|eauto].
    destruct (list_remove_elem item (Room.items room)) as [items ->];
      [eapply find_item_elem, Hitem|]. simpl.
    destruct (decide (Item.item_type item = TREASURE));
      [destruct (String.eqb (Item.name item) "Gold Coins");
       [|destruct (String.eqb (Item.name item) "Treasure Chest")]|];
      simpl; eauto.
  - destruct s as [pl started over rs enemy hp]; simpl in *; subst.
    unfold inventory. unfold_M. simpl.
    destruct (Player.inventory p); simpl; eauto.
  - destruct s as [pl started over rs enemy hp]; simpl in *; subst.
    unfold status. unfold_M.
    repeat progress (simpl; rewrite ?Hroom). eauto.
  - destruct (current_enemy s) as [l|] eqn:Henemy; cycle 1.
    { destruct s as [pl started over rs enemy hp]; simpl in *; subst.
      unfold attack. unfold_M. simpl. eauto. }
    destruct (Hactive l eq_refl) as [e He].
    rewrite (attack_unfold s l e p) by assumption. simpl.
    repeat case_match; simpl; eauto.
  - destruct s as [pl started over rs enemy hp]; simpl in *; subst.
    unfold use. unfold_M. simpl.
    destruct (find_item item_name (Player.inventory p)) as [item|] eqn:Hitem;
      simpl; [|eauto].
    destruct (bool_decide (Item.item_type item = POTION)); simpl; [|eauto].
    destruct (contains "health" (lower (Item.name item))); simpl; [|eauto].
    destruct (list_remove_elem item (Player.inventory p)) as [items ->];
      [eapply find_item_elem, Hitem|]. simpl. eauto.
  - unfold help. unfold_M. simpl. eauto.
  - destruct s as [pl started over rs enemy hp]; simpl in *; subst.
    unfold get_game_state. unfold_M. simpl.
    destruct over; simpl; [eauto|].
    repeat progress (simpl; rewrite ?Hroom).
    destruct enemy as [l|]; simpl; [|eauto].
    destruct (Hactive l eq_refl) as [e ->]. simpl. eauto.
Qed.

(** X1: over a world that has an "entrance", whose exits all lead to
    rooms and whose enemy lists refer to allocated dictionaries, no call of
    any method raises, whatever calls were made before: the attribute reads
    on [self.player], the room lookups and the [list.remove] calls all
    succeed. *)
Theorem reachable_calls_return (w : gmap string Room.t) (h : gmap loc Enemy.t)
    (s : Game) (c : Command) :
  world_closed w →
  templates_allocated w h →
  reachable (new_session w h) s →
  ∃ reply, fst (exec c s) = inr reply.
Proof.
  intros Hclosed Htemplates Hs.
  apply safe_returns, (safe_reachable w h); assumption.
Qed.

Lemma create_world_closed : world_closed (fst _create_world).
Proof.
  split; [eexists; vm_compute; reflexivity|].
  unfold _create_world. simpl.
  repeat apply map_Forall_insert_2; try apply map_Forall_empty; simpl;
    repeat constructor; eexists; vm_compute; reflexivity.
Qed.

Lemma reachable_calls_return_witness :
  ∃ reply, fst (exec (Move 2 "south") slain_by_dragon) = inr reply.
Proof.
  apply (reachable_calls_return (fst _create_world) (snd _create_world)
           slain_by_dragon (Move 2 "south")).
  - exact create_world_closed.
  - exact create_world_templates_allocated.
  - repeat apply reachable_run. apply reachable_refl.
Defined.

Lemma world_is_only_emptied_witness :
  (∀ k, option_Forall2 room_frame (fst _create_world !! k)
          (rooms armored_facing_bat !! k)) ∧
  (∀ p item, player armored_facing_bat = Some p →
             item ∈ Player.inventory p →
             ∃ k r0, fst _create_world !! k = Some r0 ∧ item ∈ Room.items r0).
Proof.
  apply (world_is_only_emptied (fst _create_world) (snd _create_world)
           armored_facing_bat).
  repeat apply reachable_run. apply reachable_refl.
Defined.

Lemma level_inv_effect (s s' : Game) : level_inv s → effect s s' → level_inv s'.
Proof.
  intros Hinv Heffect.
  destruct Heffect
    as [name|p room Hstarted Hp Hroom
       |p room t template Hstarted Hp Hroom Ht Henemy Htemplate
       |p room d target Hstarted Henemy Hp Hroom Hexit
       |p room item items Hstarted Hp Hroom Hitem Hitems'
       |p amount Hp Hamount
       |l e p Hstarted Henemy Hheap Hp
       |p item items Hstarted Hp Hitem Hpotion Hitems'];
    try exact Hinv;
    try (intros p' [= <-]; simpl; first [exact (Hinv p Hp)|lia]).
  rewrite (attack_unfold s l e p) by assumption. simpl.
  destruct (Hinv p Hp) as [Hlevel Hmax].
  repeat case_match; simpl; intros p' [= <-]; simpl; lia.
Qed.

(** X4: in every session reachable from the constructor the player's
    level is at least 1 and [max_health] is 100 plus 20 per level gained. *)
Theorem max_health_follows_level (w : gmap string Room.t)
    (h : gmap loc Enemy.t) (s : Game) (p : Player.t) :
  reachable (new_session w h) s →
  player s = Some p →
  1 ≤ Player.level p ∧
  Player.max_health p = 100 + 20 * (Player.level p - 1).
Proof.
  intros Hs Hp. revert p Hp.
  apply (reachable_invariant level_inv (new_session w h));
    [|apply level_inv_effect|exact Hs].
  intros p [=].
Qed.

Lemma max_health_follows_level_witness :
  1 ≤ Player.level
        (Player.mk "Ann" 120 120
           [Item.mk "Leather Armor" "Basic leather protection" ARMOR 0 10 0]
           "main_cavern" 0 2 55) ∧
  Player.max_health
    (Player.mk "Ann" 120 120
       [Item.mk "Leather Armor" "Basic leather protection" ARMOR 0 10 0]
       "main_cavern" 0 2 55)
    = 100 + 20 * (2 - 1).
Proof.
  apply (max_health_follows_level (fst _create_world) (snd _create_world)
           levelled_up).
  - repeat apply reachable_run. apply reachable_refl.
  - vm_compute. reflexivity.
Defined.

(** ** Gold, the active enemy and frames *)

Lemma zsum_cons (x : Z) (l : list Z) : zsum (x :: l) = x + zsum l.
Proof. reflexivity. Qed.

Lemma zsum_app (l1 l2 : list Z) : zsum (l1 ++ l2) = zsum l1 + zsum l2.
Proof. induction l1 as [|x l1 IH]; simpl; [reflexivity|]. rewrite IH. lia. Qed.

Lemma list_remove_zsum (f : Item.t → Z) (x : Item.t) (l l' : list Item.t) :
  list_remove x l = Some l' → zsum (f <$> l) = f x + zsum (f <$> l').
Proof.
  revert l'. induction l as [|y l IH]; intros l' Hl'; [discriminate|].
  rewrite fmap_cons, zsum_cons. simpl in Hl'.
  destruct (decide (y = x)) as [->|].
  - injection Hl' as ->. reflexivity.
  - destruct (list_remove x l) as [l0|]; simpl in Hl'; [|discriminate].
    injection Hl' as <-.
    rewrite fmap_cons, zsum_cons, (IH l0 eq_refl). lia.
Qed.

Lemma gold_inv_exec (c : Command) (s : Game) :
  gold_inv s → gold_inv (snd (exec c s)).
Proof.
  intros Hinv.
  destruct c as [rnd name|rnd|rnd direction|item_name| | | |item_name| |];
    simpl.
  - rewrite start_game_state. intros p.
    rewrite _get_room_description_player. simpl. intros [= <-]. reflexivity.
  - rewrite look_state. intros p. rewrite _get_room_description_player.
    apply Hinv.
  - destruct (move_state rnd direction s)
      as [->|(p & room & d & target & ? & ? & Hp & ? & ? & ? & ->)];
      [exact Hinv|].
    intros p'. rewrite _get_room_description_player. simpl.
    intros [= <-]. simpl. apply Hinv, Hp.
  - destruct (take_state item_name s)
      as [->|(p & room & item & items & ? & Hp & ? & Hitem & ? & Htaken)];
      [exact Hinv|].
    simpl in Htaken. rewrite Htaken. pose proof (Hinv p Hp) as Hgold.
    assert (∀ p',
              Some (Player.set_gold (Player.gold p + gold_value item)
                      (Player.set_inventory (Player.inventory p ++ [item]) p))
                = Some p' →
              Player.gold p' = zsum (gold_value <$> Player.inventory p'))
      as Hnew.
    { intros p' [= <-]. simpl. rewrite fmap_app, zsum_app. simpl. lia. }
    unfold gold_value in Hnew.
    destruct (decide (Item.item_type item = TREASURE));
      [destruct (String.eqb (Item.name item) "Gold Coins");
       [|destruct (String.eqb (Item.name item) "Treasure Chest")]|];
      intros p' Hp'; apply Hnew; simpl in *; rewrite <- Hp';
      rewrite ?Z.add_0_r; try reflexivity; by destruct p.
  - rewrite (proj1 (read_only_state s)). exact Hinv.
  - rewrite (proj1 (proj2 (read_only_state s))). exact Hinv.
  - destruct (attack_state s) as [->|(l & e & p & ? & ? & ? & Hp)];
      [exact Hinv|].
    rewrite (attack_unfold s l e p) by assumption. simpl.
    pose proof (Hinv p Hp) as Hgold.
    repeat case_match; simpl; intros p' [= <-]; simpl; exact Hgold.
  - destruct (use_state item_name s)
      as [->|(p & item & items & ? & Hp & ? & Hpotion & ? & Hitems & ->)];
      [exact Hinv|].
    simpl. intros p' [= <-]. simpl. rewrite (Hinv p Hp).
    rewrite (list_remove_zsum gold_value item _ items Hitems).
    unfold gold_value at 1. rewrite Hpotion.
    rewrite decide_False by discriminate. lia.
  - exact Hinv.
  - rewrite (proj2 (proj2 (proj2 (read_only_state s)))). exact Hinv.
Qed.

(** X5: in every session reachable from one that has no player yet, the
    player's gold is the sum of the gold values of the carried items: 50 per
    treasure named Gold Coins and 200 per treasure named Treasure Chest. *)
Theorem gold_follows_inventory (s0 s : Game) (p : Player.t) :
  player s0 = None →
  reachable s0 s →
  player s = Some p →
  Player.gold p = zsum (gold_value <$> Player.inventory p).
Proof.
  intros Hnone Hs. revert p.
  induction Hs as [|s c Hs IH].
  - intros p Hp. congruence.
  - exact (gold_inv_exec c s IH).
Qed.

Lemma gold_follows_inventory_witness :
  Player.gold
    (Player.mk "Ann" 76 100
       [Item.mk "Gold Coins" "Shiny gold coins" TREASURE 0 0 0]
       "goblin_camp" 50 1 15)
    = zsum (gold_value <$>
              [Item.mk "Gold Coins" "Shiny gold coins" TREASURE 0 0 0]).
Proof.
  apply (gold_follows_inventory ASCIIGame with_gold
           (Player.mk "Ann" 76 100
              [Item.mk "Gold Coins" "Shiny gold coins" TREASURE 0 0 0]
              "goblin_camp" 50 1 15)).
  - reflexivity.
  - repeat apply reachable_run. apply reachable_refl.
  - vm_compute. reflexivity.
Defined.


Lemma enemy_inv_effect (w : gmap string Room.t) (h : gmap loc Enemy.t)
    (s s' : Game) :
  templates_allocated w h →
  template_inv w h s → enemy_inv h s → effect s s' → enemy_inv h s'.
Proof.
  intros Hw Htinv Hinv Heffect.
  destruct Heffect
    as [name|p room Hstarted Hp Hroom
       |p room t template Hstarted Hp Hroom Ht Henemy Htemplate
       |p room d target Hstarted Henemy Hp Hroom Hexit
       |p room item items Hstarted Hp Hroom Hitem Hitems'
       |p amount Hp Hamount
       |l e p Hstarted Henemy Hheap Hp
       |p item items Hstarted Hp Hitem Hpotion Hitems'].
  - intros l [=].
  - intros l Hl. simpl in Hl.
    destruct (Hinv l Hl) as (p0 & room0 & t & e & template & Hp0 & Hroom0 & Hrest).
    simplify_eq. exists p, (Room.set_visited true room), t, e, template.
    simpl. split; [exact Hp|]. split; [apply lookup_insert_eq|exact Hrest].
  - intros l [= <-]. simpl.
    destruct (template_inv_lookup w h s _ room t Hw Htinv Hroom Ht)
      as [_ Hsame].
    exists p, room, t, template, template. rewrite lookup_insert_eq.
    rewrite <- Hsame. done.
  - intros l Hl. simpl in Hl. congruence.
  - intros l Hl. simpl in Hl.
    destruct (Hinv l Hl) as (p0 & room0 & t & e & template & Hp0 & Hroom0 & Hrest).
    simplify_eq.
    exists (Player.set_inventory (Player.inventory p ++ [item]) p),
      (Room.set_items items room), t, e, template.
    simpl. split; [reflexivity|]. split; [apply lookup_insert_eq|exact Hrest].
  - intros l Hl. simpl in Hl.
    destruct (Hinv l Hl) as (p0 & room0 & t & e & template & Hp0 & Hroom0 & Hrest).
    simplify_eq. eexists _, room0, t, e, template. simpl.
    split; [reflexivity|]. split; [exact Hroom0|exact Hrest].
  - destruct (Hinv l Henemy)
      as (p0 & room0 & t & e0 & template & Hp0 & Hroom0 & Ht & He0 & Hrest).
    simplify_eq.
    rewrite (attack_unfold s l e p) by assumption. simpl.
    repeat case_match; simpl; intros l' Hl'; simpl in Hl'; simplify_eq.
    all: eexists _, room0, t, _, template; simpl;
      (split; [reflexivity|]); (split; [exact Hroom0|]);
      (split; [exact Ht|]); (split; [apply lookup_insert_eq|]);
      simpl; exact Hrest.
  - intros l Hl. simpl in Hl.
    destruct (Hinv l Hl) as (p0 & room0 & t & e & template & Hp0 & Hroom0 & Hrest).
    simplify_eq. eexists _, room0, t, e, template. simpl.
    split; [reflexivity|]. split; [exact Hroom0|exact Hrest].
Qed.

(** X3: in every session reachable from the constructor, over a world
    whose enemy lists refer to allocated dictionaries, an active enemy is in
    the store and has the name, damage and experience reward the world was
    built with for one of the templates of the room the player is in. *)
Theorem active_enemy_is_room_template (w : gmap string Room.t)
    (h : gmap loc Enemy.t) (s : Game) (l : loc) :
  templates_allocated w h →
  reachable (new_session w h) s →
  current_enemy s = Some l →
  ∃ p room t e template,
    player s = Some p ∧
    rooms s !! Player.current_room p = Some room ∧
    t ∈ Room.enemies room ∧
    heap s !! l = Some e ∧
    h !! t = Some template ∧
    Enemy.name e = Enemy.name template ∧
    Enemy.damage e = Enemy.damage template ∧
    Enemy.exp e = Enemy.exp template.
Proof.
  intros Hw Hs. revert l.
  assert (template_inv w h s ∧ enemy_inv h s) as [_ Hinv]; [|exact Hinv].
  apply (reachable_invariant (λ s, template_inv w h s ∧ enemy_inv h s)
           (new_session w h)); [| |exact Hs].
  - split; [|intros l [=]]. repeat split; simpl; done.
  - intros s1 s2 [Htinv Heinv] Heffect. split.
    + eapply template_inv_effect; eassumption.
    + eapply enemy_inv_effect; eassumption.
Qed.

Lemma active_enemy_is_room_template_witness :
  ∃ p room t e template,
    player with_gold = Some p ∧
    rooms with_gold !! Player.current_room p = Some room ∧
    t ∈ Room.enemies room ∧
    heap with_gold !! 5%positive = Some e ∧
    snd _create_world !! t = Some template ∧
    Enemy.name e = Enemy.name template ∧
    Enemy.damage e = Enemy.damage template ∧
    Enemy.exp e = Enemy.exp template.
Proof.
  apply (active_enemy_is_room_template (fst _create_world)
           (snd _create_world) with_gold 5%positive).
  - exact create_world_templates_allocated.
  - repeat apply reachable_run. apply reachable_refl.
  - vm_compute. reflexivity.
Defined.


(** X6: the fields of the player each method may change.  [start_game]
    replaces the player by a new one; [move] changes [current_room] at most;
    [take] changes the inventory and the gold at most; [attack] keeps the
    name, inventory, room and gold; [use] changes the inventory and the
    health at most; [look], [inventory], [status], [help] and
    [get_game_state] change nothing of the player. *)
Theorem player_frame (c : Command) (s : Game) (p p' : Player.t) :
  player s = Some p →
  player (snd (exec c s)) = Some p' →
  match c with
  | StartGame _ player_name => p' = Player.new player_name
  | Move _ _ => p' = Player.set_current_room (Player.current_room p') p
  | Take _ =>
      p' = Player.set_gold (Player.gold p')
             (Player.set_inventory (Player.inventory p') p)
  | Attack =>
      Player.name p' = Player.name p ∧
      Player.inventory p' = Player.inventory p ∧
      Player.current_room p' = Player.current_room p ∧
      Player.gold p' = Player.gold p
  | Use _ =>
      p' = Player.set_inventory (Player.inventory p')
             (Player.set_health (Player.health p') p)
  | Look _ | Inventory | Status | Help | GetGameState => p' = p
  end.
Proof.
  intros Hp.
  destruct c as [rnd name|rnd|rnd direction|item_name| | | |item_name| |];
    simpl.
  - rewrite start_game_state, _get_room_description_player. simpl. congruence.
  - rewrite look_state, _get_room_description_player. congruence.
  - destruct (move_state rnd direction s)
      as [->|(p0 & room & d & target & ? & ? & Hp0 & ? & ? & ? & ->)].
    + intros Hp'. assert (p' = p) as -> by congruence. by destruct p.
    + rewrite _get_room_description_player. simpl. intros [= <-].
      simplify_eq. reflexivity.
  - destruct (take_state item_name s)
      as [->|(p0 & room & item & items & ? & Hp0 & ? & Hitem & ? & Htaken)].
    + intros Hp'. assert (p' = p) as -> by congruence. by destruct p.
    + simpl in Htaken. rewrite Htaken. simplify_eq.
      repeat case_match; simpl; intros [= <-]; reflexivity.
  - rewrite (proj1 (read_only_state s)). congruence.
  - rewrite (proj1 (proj2 (read_only_state s))). congruence.
  - destruct (attack_state s) as [->|(l & e & p0 & ? & ? & ? & Hp0)].
    + intros Hp'. simplify_eq. done.
    + simplify_eq. rewrite (attack_unfold s l e p) by assumption. simpl.
      repeat case_match; simpl; intros [= <-]; done.
  - destruct (use_state item_name s)
      as [->|(p0 & item & items & ? & Hp0 & ? & Hpotion & ? & Hitems & ->)].
    + intros Hp'. assert (p' = p) as -> by congruence. by destruct p.
    + simpl. intros [= <-]. simplify_eq. reflexivity.
  - intros Hp'. simplify_eq. reflexivity.
  - rewrite (proj2 (proj2 (proj2 (read_only_state s)))). congruence.
Qed.

Lemma player_frame_witness :
  Player.name (Player.mk "Ann" 92 100 [] "main_cavern" 0 1 0)
    = Player.name (Player.mk "Ann" 100 100 [] "main_cavern" 0 1 0) ∧
  Player.inventory (Player.mk "Ann" 92 100 [] "main_cavern" 0 1 0)
    = Player.inventory (Player.mk "Ann" 100 100 [] "main_cavern" 0 1 0) ∧
  Player.current_room (Player.mk "Ann" 92 100 [] "main_cavern" 0 1 0)
    = Player.current_room (Player.mk "Ann" 100 100 [] "main_cavern" 0 1 0) ∧
  Player.gold (Player.mk "Ann" 92 100 [] "main_cavern" 0 1 0)
    = Player.gold (Player.mk "Ann" 100 100 [] "main_cavern" 0 1 0).
Proof.
  apply (player_frame Attack facing_bat
           (Player.mk "Ann" 100 100 [] "main_cavern" 0 1 0)
           (Player.mk "Ann" 92 100 [] "main_cavern" 0 1 0));
    vm_compute; reflexivity.
Defined.


(** X7: the parts of the session each method may change.  [inventory],
    [status], [help] and [get_game_state] change nothing, also when they
    raise.  Only [start_game] changes [game_started]; [game_over] is cleared
    by [start_game] only and set by [attack] only.  [take] and [use] leave
    the active enemy and the store alone; [attack] and [use] leave the rooms
    alone. *)
Theorem session_frame (c : Command) (s : Game) :
  let s' := snd (exec c s) in
  match c with
  | StartGame _ _ => game_started s' = true ∧ game_over s' = false
  | Look _ | Move _ _ =>
      game_started s' = game_started s ∧ game_over s' = game_over s
  | Take _ =>
      game_started s' = game_started s ∧ game_over s' = game_over s ∧
      current_enemy s' = current_enemy s ∧ heap s' = heap s
  | Attack =>
      game_started s' = game_started s ∧
      (game_over s = true → game_over s' = true) ∧
      rooms s' = rooms s
  | Use _ =>
      game_started s' = game_started s ∧ game_over s' = game_over s ∧
      rooms s' = rooms s ∧
      current_enemy s' = current_enemy s ∧ heap s' = heap s
  | Inventory | Status | Help | GetGameState => s' = s
  end.
Proof.
  destruct c as [rnd name|rnd|rnd direction|item_name| | | |item_name| |];
    simpl.
  - rewrite start_game_state. apply _get_room_description_flags.
  - rewrite look_state. apply _get_room_description_flags.
  - destruct (move_state rnd direction s)
      as [->|(p0 & room & d & target & ? & ? & Hp0 & ? & ? & ? & ->)];
      [done|].
    apply (_get_room_description_flags rnd
             (set_player (Some (Player.set_current_room target p0)) s)).
  - destruct (take_state item_name s)
      as [->|(p0 & room & item & items & ? & Hp0 & ? & Hitem & ? & Htaken)];
      [done|].
    simpl in Htaken. rewrite Htaken. repeat case_match; done.
  - apply read_only_state.
  - apply read_only_state.
  - destruct (attack_state s) as [->|(l & e & p0 & ? & ? & ? & Hp0)];
      [done|].
    rewrite (attack_unfold s l e p0) by assumption. simpl.
    repeat case_match; done.
  - destruct (use_state item_name s)
      as [->|(p0 & item & items & ? & Hp0 & ? & Hpotion & ? & Hitems & ->)];
      done.
  - reflexivity.
  - apply read_only_state.
Qed.

(** ** Sequences of calls *)

Lemma run_app (cs1 cs2 : list Command) (s : Game) :
  run (cs1 ++ cs2) s = run cs2 (run cs1 s).
Proof.
  revert s. induction cs1 as [|c cs1 IH]; intros s; simpl; [reflexivity|].
  apply IH.
Qed.

(** [n] exchanges the enemy survives. *)
Lemma attack_rounds_survived (n : nat) (s : Game) (l : loc) (e : Enemy.t)
    (p : Player.t) :
  game_started s = true →
  current_enemy s = Some l →
  heap s !! l = Some e →
  player s = Some p →
  0 ≤ weapon_damage (Player.inventory p) →
  0 < Enemy.health e - Z.of_nat n * (5 + weapon_damage (Player.inventory p)) →
  let s' := run (replicate n Attack) s in
  game_started s' = true ∧
  current_enemy s' = Some l ∧
  heap s' !! l
    = Some (Enemy.mk (Enemy.name e)
              (Enemy.health e
               - Z.of_nat n * (5 + weapon_damage (Player.inventory p)))
              (Enemy.damage e) (Enemy.exp e)) ∧
  player s'
    = Some (Player.set_health
              (Player.health p
               - Z.of_nat n
                 * Z.max 1 (Enemy.damage e
                            - armor_defense (Player.inventory p))) p) ∧
  rooms s' = rooms s.
Proof.
  revert s e p. induction n as [|n IH];
    intros s e p Hstarted Henemy Hheap Hp Hweapons Halive.
  - simpl. rewrite Hheap, Hp. repeat split; try done.
    + destruct e. simpl. do 2 f_equal. change (Z.of_nat 0) with 0. lia.
    + destruct p. unfold Player.set_health. simpl. do 2 f_equal.
      change (Z.of_nat 0) with 0. lia.
  - cbn [replicate run exec].
    pose proof (attack_unfold s l e p Hstarted Henemy Hheap Hp) as Hattack.
    simpl in Hattack.
    set (e1 := Enemy.mk (Enemy.name e)
                 (Enemy.health e - (5 + weapon_damage (Player.inventory p)))
                 (Enemy.damage e) (Enemy.exp e)) in *.
    set (p1 := Player.set_health
                 (Player.health p
                  - Z.max 1 (Enemy.damage e
                             - armor_defense (Player.inventory p))) p) in *.
    assert (game_started (snd (attack s)) = true ∧
            current_enemy (snd (attack s)) = Some l ∧
            heap (snd (attack s)) !! l = Some e1 ∧
            player (snd (attack s)) = Some p1 ∧
            rooms (snd (attack s)) = rooms s) as (H1 & H2 & H3 & H4 & H5).
    { rewrite Hattack. unfold e1, p1.
      repeat case_match; simpl; rewrite ?lookup_insert_eq;
        repeat split; try assumption; try reflexivity; lia. }
    destruct (IH (snd (attack s)) e1 p1 H1 H2 H3 H4) as (? & ? & Hl & Hp' & ?).
    + exact Hweapons.
    + simpl. rewrite Nat2Z.inj_succ, Z.mul_succ_l in Halive. lia.
    + simpl in *. rewrite Nat2Z.inj_succ, !Z.mul_succ_l.
      repeat split; try congruence.
      * rewrite Hl. do 2 f_equal. lia.
      * rewrite Hp'. unfold p1, Player.set_health. simpl. do 2 f_equal. lia.
Qed.

(** X16: combat over several calls.  With an active enemy of health [H],
    carried weapons of non-negative total damage and [D = 5 + weapons], as
    long as [H - n * D] is positive the enemy is still active after [n]
    attacks, at health [H - n * D], and the player has lost
    [n * max 1 (E - F)] health and nothing else; if one more blow brings the
    enemy to 0 or below, that attack clears the active enemy and awards its
    experience, once. *)
Theorem attack_rounds (n : nat) (s : Game) (l : loc) (e : Enemy.t)
    (p : Player.t) :
  game_started s = true →
  current_enemy s = Some l →
  heap s !! l = Some e →
  player s = Some p →
  0 ≤ weapon_damage (Player.inventory p) →
  0 < Enemy.health e - Z.of_nat n * (5 + weapon_damage (Player.inventory p)) →
  let D := 5 + weapon_damage (Player.inventory p) in
  let A := Z.max 1 (Enemy.damage e - armor_defense (Player.inventory p)) in
  let s' := run (replicate n Attack) s in
  current_enemy s' = Some l ∧
  heap s' !! l
    = Some (Enemy.mk (Enemy.name e) (Enemy.health e - Z.of_nat n * D)
              (Enemy.damage e) (Enemy.exp e)) ∧
  player s' = Some (Player.set_health (Player.health p - Z.of_nat n * A) p) ∧
  (Enemy.health e - Z.of_nat (S n) * D ≤ 0 →
   current_enemy (run (replicate (S n) Attack) s) = None ∧
   ∃ p',
     player (run (replicate (S n) Attack) s) = Some p' ∧
     Player.experience p' = Player.experience p + Enemy.exp e ∧
     Player.inventory p' = Player.inventory p).
Proof.
  intros Hstarted Henemy Hheap Hp Hweapons Halive D A s'.
  destruct (attack_rounds_survived n s l e p Hstarted Henemy Hheap Hp Hweapons
              Halive) as (Hstarted' & Henemy' & Hheap' & Hp' & _).
  fold D A s' in Hstarted', Henemy', Hheap', Hp'.
  split; [exact Henemy'|]. split; [exact Hheap'|]. split; [exact Hp'|].
  intros Hdead.
  replace (S n) with (n + 1)%nat in * by lia.
  rewrite replicate_add, run_app. fold s'. cbn [replicate run exec].
  rewrite (attack_unfold s' l _ _ Hstarted' Henemy' Hheap' Hp'). simpl.
  fold D.
  destruct (Z.leb_spec (Enemy.health e - Z.of_nat n * D - D) 0); [|lia].
  case_match; simpl; (split; [reflexivity|]); eexists;
    (split; [reflexivity|]); simpl; split; reflexivity.
Qed.

Lemma attack_rounds_witness :
  let D := 5 + weapon_damage [] in
  let A := Z.max 1 (8 - armor_defense []) in
  let s' := run (replicate 3 Attack) facing_bat in
  current_enemy s' = Some 4%positive ∧
  heap s' !! 4%positive = Some (Enemy.mk "Cave Bat" (20 - Z.of_nat 3 * D) 8 15) ∧
  player s'
    = Some (Player.set_health (100 - Z.of_nat 3 * A)
              (Player.mk "Ann" 100 100 [] "main_cavern" 0 1 0)) ∧
  (20 - Z.of_nat 4 * D ≤ 0 →
   current_enemy (run (replicate 4 Attack) facing_bat) = None ∧
   ∃ p',
     player (run (replicate 4 Attack) facing_bat) = Some p' ∧
     Player.experience p' = 0 + 15 ∧
     Player.inventory p' = []).
Proof.
  apply (attack_rounds 3 facing_bat 4%positive (Enemy.mk "Cave Bat" 20 8 15)
           (Player.mk "Ann" 100 100 [] "main_cavern" 0 1 0));
    vm_compute; (reflexivity || discriminate).
Defined.

(** X17: a [look] that returns is idempotent on the session: a second
    [look], whatever its draw, changes nothing more, so the enemy a [look]
    instantiates is instantiated once. *)
Theorem look_twice (s : Game) (rnd1 rnd2 : nat) (reply : Reply) :
  fst (look rnd1 s) = inr reply →
  snd (look rnd2 (snd (look rnd1 s))) = snd (look rnd1 s).
Proof.
  rewrite !look_state. intros Hreply.
  assert (∃ text, fst (_get_room_description rnd1 s) = inr text) as [text Htext].
  { revert Hreply. unfold look. unfold_M. simpl.
    destruct (game_started s) eqn:Hstarted; simpl.
    - destruct (player s) as [p|] eqn:Hp; simpl; [|discriminate].
      destruct (rooms s !! Player.current_room p) as [room|]; simpl;
        [|discriminate].
      destruct (_get_room_description rnd1 s) as [[e|text] s1]; simpl;
        [discriminate|eauto].
    - intros _. unfold _get_room_description. unfold_M.
      repeat progress (simpl; rewrite ?Hstarted). eauto. }
  clear Hreply.
  destruct (game_started s) eqn:Hstarted; cycle 1.
  { assert (snd (_get_room_description rnd1 s) = s) as ->; [|].
    all: unfold _get_room_description; unfold_M;
      repeat progress (simpl; rewrite ?Hstarted); reflexivity. }
  destruct (player s) as [p|] eqn:Hp; cycle 1.
  { revert Htext. unfold _get_room_description. unfold_M.
    repeat progress (simpl; rewrite ?Hstarted, ?Hp). discriminate. }
  destruct (rooms s !! Player.current_room p) as [room|] eqn:Hroom; cycle 1.
  { revert Htext. unfold _get_room_description. unfold_M.
    repeat progress (simpl; rewrite ?Hstarted, ?Hp, ?Hroom). discriminate. }
  revert Htext.
  rewrite (_get_room_description_unfold rnd1 s p room) by assumption.
  set (seen := set_rooms
                 (<[Player.current_room p := Room.set_visited true room]>
                    (rooms s)) s).
  assert (∀ s1, game_started s1 = true → player s1 = Some p →
                rooms s1 = rooms seen →
                (Room.enemies room = [] ∨ is_Some (current_enemy s1)) →
                snd (_get_room_description rnd2 s1) = s1) as Hsame.
  { intros s1 Hstarted1 Hp1 Hrooms1 Hquiet.
    rewrite (_get_room_description_unfold rnd2 s1 p
               (Room.set_visited true room));
      [|assumption..|rewrite Hrooms1; apply lookup_insert_eq].
    assert (set_rooms
              (<[Player.current_room p
                 := Room.set_visited true (Room.set_visited true room)]>
                 (rooms s1)) s1 = s1) as Hseen.
    { destruct s1; simpl in *; subst. unfold set_rooms, seen. simpl.
      f_equal. apply insert_insert_eq. }
    simpl. destruct Hquiet as [Hnone|[l Hl]].
    - rewrite Hnone. exact Hseen.
    - rewrite Hl. destruct (Room.enemies room); exact Hseen. }
  destruct (Room.enemies room) as [|t ts] eqn:Htemplates.
  { intros _. apply Hsame; auto. }
  destruct (current_enemy s) as [l|] eqn:Henemy.
  { intros _. apply Hsame; eauto. }
  destruct (heap s !! random_choice rnd1 t ts) as [template|];
    [|discriminate].
  intros _. apply Hsame; simpl; eauto.
Qed.

Lemma look_twice_witness :
  snd (look 5 (snd (look 3 bat_beaten))) = snd (look 3 bat_beaten).
Proof.
  apply (look_twice bat_beaten 3 5
           (LookText
              (EnemyAppears (Room.description main_cavern) "Cave Bat" 20)
              "Health Potion" "north, south, east, west")).
  vm_compute. reflexivity.
Defined.
